(** * Verification of the EAFIT sustainability dashboards

    A shallow embedding of the two chart scripts of the repository,
    [Dashboradv2/index.py] (variant v2) and [Dashboardv3/GenerateCharts.py]
    (variant v3): the dataset loader, the shared-table mutations, the
    per-chart aggregations that the specification talks about, the label
    wrapper [wrap_text] and the Sankey node numbering. *)

From Stdlib Require Import List Permutation Sorted Ascii String Bool Arith ZArith Lia QArith.
Import ListNotations.

(* ------------------------------------------------------------------ *)
(** ** [wrap_text] (v3, lines 82-106) *)

(** Python's truthiness of a list, negated: [not xs]. *)
Definition null {A} (xs : list A) : bool :=
  match xs with [] => true | _ => false end.

Module WrapText.
Local Open Scope nat_scope.

(** A Python [str] as its list of characters; [len] is [length]. *)
Definition text := list ascii.

(** [str.isspace] on the ASCII range: tab, newline, vertical tab, form
    feed, carriage return, the separators 0x1c-0x1f and the space. *)
Definition is_space (c : ascii) : bool :=
  let n := nat_of_ascii c in
  ((9 <=? n) && (n <=? 13)) || ((28 <=? n) && (n <=? 32)).

(** Put a character at the front of the first piece. *)
Definition push (c : ascii) (ps : list text) : list text :=
  match ps with
  | [] => [[c]]
  | p :: ps' => (c :: p) :: ps'
  end.

(** Cut at every whitespace character. *)
Fixpoint split_ws (s : text) : list text :=
  match s with
  | [] => [[]]
  | c :: t => if is_space c then [] :: split_ws t else push c (split_ws t)
  end.

Definition nonempty (w : text) : bool := negb (null w).

(** [str.split()] with no argument: whitespace runs separate, empty
    pieces are dropped. *)
Definition split (s : text) : list text := filter nonempty (split_ws s).

(** [sep.join(xs)] *)
Fixpoint join (sep : text) (xs : list text) : text :=
  match xs with
  | [] => []
  | [x] => x
  | x :: xs' => x ++ sep ++ join sep xs'
  end.

Definition space : text := [" "%char].
Definition br : text := ["<"; "b"; "r"; ">"]%char.

(** The body of the [for word in words] loop, with the loop state
    [(lines, current_line, current_length)] passed explicitly. *)
Fixpoint wrap_loop (max_length : Z) (words : list text) (lines : list text)
    (current_line : list text) (current_length : nat)
    : list text * list text * nat :=
  match words with
  | [] => (lines, current_line, current_length)
  | word :: rest =>
      if Z.ltb max_length (Z.of_nat (current_length + List.length word + List.length current_line))
         && negb (null current_line)
      then wrap_loop max_length rest (lines ++ [join space current_line])
             [word] (List.length word)
      else wrap_loop max_length rest lines (current_line ++ [word])
             (current_length + List.length word)
  end.

Definition wrap_text (t : text) (max_length : Z) : text :=
  if Z.leb (Z.of_nat (List.length t)) max_length then t
  else
    let '(lines, current_line, _) := wrap_loop max_length (split t) [] [] 0 in
    let lines := if null current_line then lines
                 else lines ++ [join space current_line] in
    join br lines.

(** The specification's reading: consecutive words are packed greedily,
    a new line starting when appending the next word to a non-empty line
    would make that line longer than the threshold. *)
Fixpoint pack (threshold : Z) (ws : list text) (done : list (list text))
    (cur : list text) : list (list text) :=
  match ws with
  | [] => if null cur then done else done ++ [cur]
  | w :: ws' =>
      if negb (null cur)
         && Z.ltb threshold (Z.of_nat (List.length (join space (cur ++ [w]))))
      then pack threshold ws' (done ++ [cur]) [w]
      else pack threshold ws' done (cur ++ [w])
  end.

Definition wrap_text_spec (t : text) (threshold : Z) : text :=
  if Z.leb (Z.of_nat (List.length t)) threshold then t
  else join br (map (join space) (pack threshold (split t) [] [])).

(** Python's [s.split('<br>')]: the leftmost occurrence is cut first. *)
Definition is_br (c1 c2 c3 c4 : ascii) : bool :=
  Ascii.eqb c1 "<" && Ascii.eqb c2 "b" && Ascii.eqb c3 "r" && Ascii.eqb c4 ">".

Fixpoint split_br (s : text) : list text :=
  match s with
  | [] => [[]]
  | c1 :: t1 =>
      match t1 with
      | c2 :: c3 :: c4 :: rest =>
          if is_br c1 c2 c3 c4 then [] :: split_br rest
          else push c1 (split_br t1)
      | _ => push c1 (split_br t1)
      end
  end.

(** The words read back from a wrapped label: cut at the marker, then
    split each piece at whitespace. *)
Definition br_words (s : text) : list text := List.concat (map split (split_br s)).

Definition starts_br (s : text) : bool :=
  match s with
  | c1 :: c2 :: c3 :: c4 :: _ => is_br c1 c2 c3 c4
  | _ => false
  end.

Fixpoint contains_br (s : text) : bool :=
  match s with
  | [] => false
  | c :: t => starts_br s || contains_br t
  end.

Fixpoint sum_len (ws : list text) : nat :=
  match ws with
  | [] => 0
  | w :: ws' => List.length w + sum_len ws'
  end.

(** The lines of the label once the loop has ended (lines 103-104). *)
Definition finish (st : list text * list text * nat) : list text :=
  let '(lines, current_line, _) := st in
  if null current_line then lines else lines ++ [join space current_line].

(** A word as [str.split()] returns it. *)
Definition is_word (w : text) : Prop :=
  w <> [] /\ existsb is_space w = false /\ contains_br w = false.

(** Sample labels: a pillar name longer than 25 characters, and a label
    holding the marker itself. *)
Definition label_pillar : text :=
  list_ascii_of_string "Gestion ambiental y cambio climatico global".
Definition label_marker : text := list_ascii_of_string "ab<br>cd".

End WrapText.


(* ------------------------------------------------------------------ *)
(** ** Cells, rows and the loaded table *)

Module Data.

(** A cell of a numeric column as pandas holds it: a number, a string (the
    column then has object dtype) or the null marker NaN. *)
Inductive Cell :=
| CNum (q : Q)
| CStr (s : string)
| CNaN.

(** One row of [empresasEafit.csv] after loading, with the columns the
    charts use. Categorical columns are strings (empty categorical cells
    are not modelled). *)
Record Row := mkRow {
  razon_social : string;              (* 'Razón social' *)
  macrosector : string;               (* 'Macrosector' *)
  bloque : string;                    (* 'Bloque' *)
  nombre_pilar : string;              (* 'Nombre Pilar' *)
  variable : string;                  (* 'Variable' *)
  valoracion_ponderada : Cell;        (* 'valoracionPonderada' *)
  ingresos_operacionales : Cell;      (* 'Ingresos operacionales' *)
  ano_fundacion : Cell;               (* 'Año de fundación' *)
  ponderacion_materialidad : Cell;    (* 'Ponderación Materialidad' *)
  valoracion : Cell                   (* 'Valoración' *)
}.

Definition table := list Row.

(** The float literals of pandas' parser ([precise_xstrtod], used by
    [pd.to_numeric] and by [pd.read_csv]): optional leading whitespace, an
    optional sign, digits with an optional fractional part (at least one
    digit in all), an optional exponent (['e'] or ['E'], an optional sign,
    one to eight digits), optional trailing whitespace. The value is the
    exact rational the literal denotes: the rounding of doubles, and their
    range, are not modelled. *)
Definition digit (c : ascii) : option Z :=
  let n := nat_of_ascii c in
  if (48 <=? n)%nat && (n <=? 57)%nat then Some (Z.of_nat (n - 48)) else None.

Fixpoint take_digits (s : list ascii) : list Z * list ascii :=
  match s with
  | c :: s' =>
      match digit c with
      | Some d => let '(ds, r) := take_digits s' in (d :: ds, r)
      | None => ([], s)
      end
  | [] => ([], [])
  end.

Definition digits_value (ds : list Z) : Z :=
  fold_left (fun acc d => acc * 10 + d)%Z ds 0%Z.

(** [isspace_ascii]: space, tab, newline, vertical tab, form feed,
    carriage return. *)
Definition c_isspace (c : ascii) : bool :=
  let n := nat_of_ascii c in (n =? 32)%nat || ((9 <=? n)%nat && (n <=? 13)%nat).

Fixpoint skip_spaces (s : list ascii) : list ascii :=
  match s with
  | c :: s' => if c_isspace c then skip_spaces s' else s
  | [] => []
  end.

(** [m * 10 ^ k] *)
Definition scale (m k : Z) : Q :=
  if Z.leb 0 k then inject_Z (m * 10 ^ k) else Qmake m (Z.to_pos (10 ^ (- k))).

(** The exponent part, when there is one: its value and the rest. An
    ['e'] without digits (or with more than eight) is left unread. *)
Definition parse_exponent (s : list ascii) : Z * list ascii :=
  match s with
  | c :: r1 =>
      if Ascii.eqb c "e" || Ascii.eqb c "E" then
        let '(neg, r2) := match r1 with
                          | c' :: r2 => if Ascii.eqb c' "-" then (true, r2)
                                        else if Ascii.eqb c' "+" then (false, r2)
                                        else (false, r1)
                          | [] => (false, [])
                          end in
        let '(ed, r3) := take_digits r2 in
        if null ed || (8 <? List.length ed)%nat then (0%Z, s)
        else ((if neg then Z.opp (digits_value ed) else digits_value ed), r3)
      else (0%Z, s)
  | [] => (0%Z, [])
  end.

Definition parse_unsigned (s : list ascii) : option Q :=
  let '(ip, r) := take_digits s in
  let '(fp, r) := match r with
                  | c :: r' => if Ascii.eqb c "." then take_digits r' else ([], r)
                  | [] => ([], [])
                  end in
  if null ip && null fp then None
  else
    let '(e, r) := parse_exponent r in
    if forallb c_isspace r
    then Some (scale (digits_value (ip ++ fp)) (e - Z.of_nat (List.length fp)))
    else None.

Definition parse_num (s : string) : option Q :=
  match skip_spaces (list_ascii_of_string s) with
  | c :: r =>
      if Ascii.eqb c "-" then option_map Qopp (parse_unsigned r)
      else if Ascii.eqb c "+" then parse_unsigned r
      else parse_unsigned (c :: r)
  | [] => None
  end.

(** Python [in] on a list of strings. *)
Definition mem (x : string) (xs : list string) : bool := existsb (String.eqb x) xs.

(** ASCII lower case, as [strcasecmp] compares. *)
Definition lower (c : ascii) : ascii :=
  let n := nat_of_ascii c in
  if (65 <=? n)%nat && (n <=? 90)%nat then ascii_of_nat (n + 32) else c.

Definition lowercase (s : string) : string :=
  string_of_list_ascii (map lower (list_ascii_of_string s)).

(** The spellings of an infinity both parsers accept besides the literals
    above, in any case: ["inf"], ["infinity"], with an optional sign. *)
Definition inf_literal (s : string) : bool :=
  mem (lowercase s) ["inf"; "+inf"; "-inf"; "infinity"; "+infinity"; "-infinity"]%string.

(** [pd.to_numeric(x, errors='coerce')], cell by cell: a literal gives its
    number, any other text NaN. An infinity spelling ([inf_literal]) gives
    +inf or -inf in pandas; [Cell] holds no infinity, and here it gives
    NaN. *)
Definition to_numeric (c : Cell) : Cell :=
  match c with
  | CStr s => match parse_num s with Some q => CNum q | None => CNaN end
  | c => c
  end.

(** [.fillna(0)] *)
Definition fillna0 (c : Cell) : Cell :=
  match c with CNaN => CNum 0 | c => c end.

(** Both together, the column rewrite of lines 222-223. *)
Definition coerce_fill (c : Cell) : Cell := fillna0 (to_numeric c).

(** Results of a computation that may raise. *)
Inductive error :=
| FileNotFoundError (filename : string)
| TypeError (msg : string)
| ValueError (msg : string).

Inductive res (A : Type) :=
| Ok (a : A)
| Raise (e : error).
Arguments Ok {A} a.
Arguments Raise {A} e.

(** [x < y] on numbers. *)
Definition Qltb (x y : Q) : bool := negb (Qle_bool y x).

(** A numeric aggregate: a number or NaN. *)
Inductive num := NVal (q : Q) | NNaN.

Definition Qsum (qs : list Q) : Q := fold_right Qplus 0 qs.

Fixpoint nums (cs : list Cell) : list Q :=
  match cs with
  | [] => []
  | CNum q :: cs' => q :: nums cs'
  | _ :: cs' => nums cs'
  end.

Definition has_str (cs : list Cell) : bool :=
  existsb (fun c => match c with CStr _ => true | _ => false end) cs.

(** [.mean()] of a group: NaN cells are skipped, a group without numbers
    gives NaN, and an object-dtype column raises [TypeError]. *)
Definition mean (cs : list Cell) : res num :=
  if has_str cs then Raise (TypeError "agg function failed [how->mean,dtype->object]")
  else match nums cs with
       | [] => Ok NNaN
       | qs => Ok (NVal (Qsum qs / inject_Z (Z.of_nat (List.length qs))))
       end.

(** [.sum()] of a numeric group: NaN cells are skipped. Used only on
    columns that hold no strings at that point of the script. *)
Definition sum (cs : list Cell) : Q := Qsum (nums cs).

(** [pd.unique]: the distinct values in order of first appearance. *)
Fixpoint unique_aux (seen : list string) (xs : list string) : list string :=
  match xs with
  | [] => []
  | x :: xs' => if mem x seen then unique_aux seen xs'
                else x :: unique_aux (x :: seen) xs'
  end.

Definition unique (xs : list string) : list string := unique_aux [] xs.

(** The group keys of [groupby(col)]: distinct values, sorted (the
    default [sort=True]). *)
Fixpoint insert_sorted (x : string) (xs : list string) : list string :=
  match xs with
  | [] => [x]
  | y :: ys => if String.leb x y then x :: xs else y :: insert_sorted x ys
  end.

Definition sort (xs : list string) : list string := fold_right insert_sorted [] xs.

Definition group_keys (key : Row -> string) (t : table) : list string :=
  sort (unique (map key t)).

Definition group_rows (key : Row -> string) (k : string) (t : table) : table :=
  filter (fun r => String.eqb (key r) k) t.

(** The numeric columns a script rewrites. *)
Inductive Col := ColScore | ColIncome | ColYear | ColMateriality | ColValoracion.

(** [df[col] = f(df[col])] on one row. *)
Definition set_col (col : Col) (f : Cell -> Cell) (r : Row) : Row :=
  match col with
  | ColScore => mkRow (razon_social r) (macrosector r) (bloque r) (nombre_pilar r)
      (variable r) (f (valoracion_ponderada r)) (ingresos_operacionales r)
      (ano_fundacion r) (ponderacion_materialidad r) (valoracion r)
  | ColIncome => mkRow (razon_social r) (macrosector r) (bloque r) (nombre_pilar r)
      (variable r) (valoracion_ponderada r) (f (ingresos_operacionales r))
      (ano_fundacion r) (ponderacion_materialidad r) (valoracion r)
  | ColYear => mkRow (razon_social r) (macrosector r) (bloque r) (nombre_pilar r)
      (variable r) (valoracion_ponderada r) (ingresos_operacionales r)
      (f (ano_fundacion r)) (ponderacion_materialidad r) (valoracion r)
  | ColMateriality => mkRow (razon_social r) (macrosector r) (bloque r) (nombre_pilar r)
      (variable r) (valoracion_ponderada r) (ingresos_operacionales r)
      (ano_fundacion r) (f (ponderacion_materialidad r)) (valoracion r)
  | ColValoracion => mkRow (razon_social r) (macrosector r) (bloque r) (nombre_pilar r)
      (variable r) (valoracion_ponderada r) (ingresos_operacionales r)
      (ano_fundacion r) (ponderacion_materialidad r) (f (valoracion r))
  end.

Definition get_col (col : Col) (r : Row) : Cell :=
  match col with
  | ColScore => valoracion_ponderada r
  | ColIncome => ingresos_operacionales r
  | ColYear => ano_fundacion r
  | ColMateriality => ponderacion_materialidad r
  | ColValoracion => valoracion r
  end.

(** The ['first'] aggregation: the first non-null cell of the group. *)
Fixpoint first_valid (cs : list Cell) : Cell :=
  match cs with
  | [] => CNaN
  | CNaN :: cs' => first_valid cs'
  | c :: _ => c
  end.

(** [x > 0] on a cell; NaN compares false. *)
Definition cell_pos (c : Cell) : bool :=
  match c with CNum q => Qltb 0 q | _ => false end.

(** One row of [groupby('Razón social').agg(total=('valoracionPonderada',
    'sum'), income=('Ingresos operacionales', 'first'),
    macrosector=('Macrosector', 'first'))]. *)
Record Company := mkCompany {
  company : string;
  total : Q;
  income : Cell;
  company_sector : string
}.

Definition company_agg (t : table) : list Company :=
  map (fun c =>
         let rows := group_rows razon_social c t in
         mkCompany c (sum (map valoracion_ponderada rows))
           (first_valid (map ingresos_operacionales rows))
           (match rows with r :: _ => macrosector r | [] => EmptyString end))
      (group_keys razon_social t).

(** [df[df['income'] > 0]] on the aggregated companies. *)
Definition positive_income (cs : list Company) : list Company :=
  filter (fun c => cell_pos (income c)) cs.

End Data.


(* ------------------------------------------------------------------ *)
(** ** Files, output and the loader *)

Module Script.
Import Data.

(** What a run does to the outside world. *)
Inductive event :=
| Print (msg : string)
| MakeDir (path : string)
| WriteFile (path : string).

(** A run that emits events and may raise. *)
Definition io (A : Type) := list event -> list event * res A.

Definition ret {A} (a : A) : io A := fun evs => (evs, Ok a).

Definition io_bind {A B} (m : io A) (f : A -> io B) : io B :=
  fun evs =>
    let '(evs', r) := m evs in
    match r with Ok a => f a evs' | Raise e => (evs', Raise e) end.

Definition emit (e : event) : io unit := fun evs => (evs ++ [e], Ok tt).
Definition throw {A} (e : error) : io A := fun evs => (evs, Raise e).
Definition lift {A} (r : res A) : io A := fun evs => (evs, r).

Notation "x <- c1 ;; c2" := (io_bind c1 (fun x => c2))
  (at level 61, c1 at next level, right associativity).
Notation "e1 ;; e2" := (io_bind e1 (fun _ => e2))
  (at level 61, right associativity).

(** A line of [empresasEafit.csv] as text. *)
Record RawRow := mkRawRow {
  raw_razon_social : string;
  raw_macrosector : string;
  raw_bloque : string;
  raw_nombre_pilar : string;
  raw_variable : string;
  raw_valoracion_ponderada : string;
  raw_ingresos_operacionales : string;
  raw_ano_fundacion : string;
  raw_ponderacion_materialidad : string;
  raw_valoracion : string
}.

(** The JSON brand document; only its presence matters here. *)
Record Brand := mkBrand { chart_colors : list string; default_font_family : string }.

(** The working directory: the two input files, when present, and whether
    [charts/] exists. *)
Record FS := mkFS {
  csv_file : option (list RawRow);     (* empresasEafit.csv *)
  brand_file : option Brand;           (* eafitBrand.json *)
  charts_dir : bool
}.

Definition csv_name : string := "empresasEafit.csv".
Definition brand_name : string := "eafitBrand.json".

(** [pd.read_csv]'s default missing-value spellings: such a cell is NaN,
    whatever the column. *)
Definition na_values : list string :=
  [""; "#N/A"; "#N/A N/A"; "#NA"; "-1.#IND"; "-1.#QNAN"; "-NaN"; "-nan"; "1.#IND";
   "1.#QNAN"; "<NA>"; "N/A"; "NA"; "NULL"; "NaN"; "None"; "n/a"; "nan"; "null"]%string.

Definition is_na (s : string) : bool := mem s na_values.

(** A cell the parser reads as a number. *)
Definition float_text (s : string) : bool :=
  match parse_num s with Some _ => true | None => inf_literal s end.

Definition true_values : list string := ["True"; "TRUE"; "true"]%string.
Definition false_values : list string := ["False"; "FALSE"; "false"]%string.

Definition bool_text (s : string) : bool := mem s true_values || mem s false_values.

(** A cell that makes its column text: neither missing, nor a number,
    nor a boolean. *)
Definition text_cell (s : string) : bool :=
  negb (is_na s) && negb (float_text s) && negb (bool_text s).

(** The dtype [pd.read_csv] infers for a column: numbers when every cell
    is missing or a number, booleans when every cell is missing or a
    boolean, text (object) otherwise. *)
Inductive kind := KNum | KBool | KText.

Definition column_kind (cs : list string) : kind :=
  if forallb (fun s => is_na s || float_text s) cs then KNum
  else if forallb (fun s => is_na s || bool_text s) cs then KBool
  else KText.

(** A cell of a column of that kind. A boolean counts as 1 or 0 in the
    sums, means and comparisons the charts make; an infinity has no
    value in [Q] and is read as NaN (see [to_numeric]). *)
Definition read_cell (k : kind) (s : string) : Cell :=
  if is_na s then CNaN
  else match k with
       | KNum => match parse_num s with Some q => CNum q | None => CNaN end
       | KBool => CNum (if mem s true_values then 1 else 0)
       | KText => CStr s
       end.

(** The kinds of the five numeric columns, inferred on the whole file. *)
Record Kinds := mkKinds {
  k_valoracion_ponderada : kind;
  k_ingresos_operacionales : kind;
  k_ano_fundacion : kind;
  k_ponderacion_materialidad : kind;
  k_valoracion : kind
}.

Definition kinds (raws : list RawRow) : Kinds :=
  mkKinds (column_kind (map raw_valoracion_ponderada raws))
          (column_kind (map raw_ingresos_operacionales raws))
          (column_kind (map raw_ano_fundacion raws))
          (column_kind (map raw_ponderacion_materialidad raws))
          (column_kind (map raw_valoracion raws)).

(** One line as a row. The categorical columns keep their text (the
    statements about tables take them as strings; v3's sector filter
    reads [Macrosector] with its inferred kind, see [V3.kept_rows]). *)
Definition read_row (ks : Kinds) (r : RawRow) : Row :=
  mkRow (raw_razon_social r) (raw_macrosector r) (raw_bloque r)
        (raw_nombre_pilar r) (raw_variable r)
        (read_cell (k_valoracion_ponderada ks) (raw_valoracion_ponderada r))
        (read_cell (k_ingresos_operacionales ks) (raw_ingresos_operacionales r))
        (read_cell (k_ano_fundacion ks) (raw_ano_fundacion r))
        (read_cell (k_ponderacion_materialidad ks) (raw_ponderacion_materialidad r))
        (read_cell (k_valoracion ks) (raw_valoracion r)).

Definition read_csv (raws : list RawRow) : table := map (read_row (kinds raws)) raws.

(** A chart file written by a run. *)
Definition is_chart (e : event) : bool :=
  match e with WriteFile _ => true | _ => false end.

(** [groupby([a, b])[col].mean()]: one entry per distinct pair of keys,
    sorted; raises as soon as a group's mean raises. *)
Fixpoint unique_pairs (seen : list (string * string)) (xs : list (string * string))
    : list (string * string) :=
  match xs with
  | [] => []
  | (x1, x2) :: xs' =>
      if existsb (fun '(y1, y2) => String.eqb x1 y1 && String.eqb x2 y2) seen
      then unique_pairs seen xs'
      else (x1, x2) :: unique_pairs ((x1, x2) :: seen) xs'
  end.

Definition pair_leb (x y : string * string) : bool :=
  String.ltb (fst x) (fst y) || (String.eqb (fst x) (fst y) && String.leb (snd x) (snd y)).

Fixpoint insert_pair (x : string * string) (xs : list (string * string)) :=
  match xs with
  | [] => [x]
  | y :: ys => if pair_leb x y then x :: xs else y :: insert_pair x ys
  end.

Definition group_keys2 (a b : Row -> string) (t : table) : list (string * string) :=
  fold_right insert_pair [] (unique_pairs [] (map (fun r => (a r, b r)) t)).

Definition group_rows2 (a b : Row -> string) (k : string * string) (t : table) : table :=
  filter (fun r => String.eqb (a r) (fst k) && String.eqb (b r) (snd k)) t.

Fixpoint mean_groups (col : Row -> Cell) (a b : Row -> string) (t : table)
    (ks : list (string * string)) : res (list ((string * string) * num)) :=
  match ks with
  | [] => Ok []
  | k :: ks' =>
      match mean (map col (group_rows2 a b k t)) with
      | Raise e => Raise e
      | Ok m => match mean_groups col a b t ks' with
                | Raise e => Raise e
                | Ok rest => Ok ((k, m) :: rest)
                end
      end
  end.

Definition groupby_mean2 (a b : Row -> string) (col : Row -> Cell) (t : table)
    : res (list ((string * string) * num)) :=
  mean_groups col a b t (group_keys2 a b t).

End Script.

(* ------------------------------------------------------------------ *)
(** ** Variant v2: [Dashboradv2/index.py] *)

Module V2.
Import Data Script.

Definition missing_message (filename : string) : string :=
  "Error: No se encontró el archivo " ++ filename ++
  ". Asegúrate de que los archivos 'empresasEafit.csv' y 'eafitBrand.json' estén en el mismo directorio.".

(** [setup_environment] (lines 10-57): [None] is the pair [(None, None)]. *)
Definition setup_environment (fs : FS) : io (option (table * Brand)) :=
  (if charts_dir fs then ret tt
   else emit (MakeDir "charts") ;; emit (Print "Directorio 'charts/' creado.")) ;;
  match csv_file fs with
  | None => emit (Print (missing_message csv_name)) ;; ret None
  | Some raws =>
      let df := read_csv raws in
      match brand_file fs with
      | None => emit (Print (missing_message brand_name)) ;; ret None
      | Some brand_config =>
          emit (Print "Entorno configurado exitosamente.") ;;
          ret (Some (df, brand_config))
      end
  end.

Definition nl : string := String (ascii_of_nat 10) EmptyString.

(** [save_chart_as_html] (lines 59-87). *)
Definition save_chart_as_html (filename : string) : io unit :=
  emit (WriteFile ("charts/" ++ filename)) ;;
  emit (Print ("Gráfico guardado en: charts/" ++ filename)).

(** Chart 01 (lines 91-105): the mean by sector and pillar, then the
    figure. *)
Definition generate_chart_01_radar_macroeconomic (df : table) : io unit :=
  radar_data <- lift (groupby_mean2 macrosector nombre_pilar valoracion_ponderada df) ;;
  save_chart_as_html "01_radar_macroeconomic.html".


Section Main.
(** Charts 02 to 15, in order. *)
Variable other_charts : table -> io unit.

(** [main] (lines 314-338). *)
Definition main (fs : FS) : io unit :=
  r <- setup_environment fs ;;
  match r with
  | None => ret tt
  | Some (df, _) =>
      emit (Print (nl ++ "--- Iniciando generación de gráficos ---")) ;;
      generate_chart_01_radar_macroeconomic df ;;
      other_charts df ;;
      emit (Print (nl ++ "--- Proceso de generación de gráficos completado. ---")) ;;
      (* the absolute path [os.getcwd()] of the folder is left out *)
      emit (Print "Se han creado 15 archivos .html en la carpeta 'charts'")
  end.
End Main.

End V2.

(* ------------------------------------------------------------------ *)
(** ** Variant v3: [Dashboardv3/GenerateCharts.py] *)

Module V3.
Import Data Script.
Local Open Scope string_scope.

(** A pandas data frame with a string index and string columns, its cells
    after [fillna(0)]. *)
Record Matrix := mkMatrix {
  m_index : list string;
  m_columns : list string;
  m_values : list (list Q)
}.

Definition num_or0 (n : option num) : Q :=
  match n with Some (NVal q) => q | _ => 0%Q end.

Definition find_entry (idx col : string * string -> string) (i c : string)
    (entries : list ((string * string) * num)) : option num :=
  option_map snd (find (fun e => String.eqb (idx (fst e)) i && String.eqb (col (fst e)) c)
                       entries).

(** [.pivot(index=idx, columns=col).fillna(0)] on the result of a
    two-key group-by: the sorted labels that occur, a missing or NaN cell
    read as 0. *)
Definition pivot (idx col : string * string -> string)
    (entries : list ((string * string) * num)) : Matrix :=
  let rows := sort (unique (map (fun e => idx (fst e)) entries)) in
  let cols := sort (unique (map (fun e => col (fst e)) entries)) in
  mkMatrix rows cols
    (map (fun i => map (fun c => num_or0 (find_entry idx col i c entries)) cols) rows).

Definition is_value (n : num) : bool :=
  match n with NVal _ => true | NNaN => false end.

(** [.pivot_table(...)] keeps its default [dropna=True]: the NaN entries
    are dropped before the table is built, so are the labels that only
    they carry. *)
Definition pivot_table (idx col : string * string -> string)
    (entries : list ((string * string) * num)) : Matrix :=
  pivot idx col (filter (fun e => is_value (snd e)) entries).

(** Lines 64-66: the rows whose [Macrosector] is one of the placeholder
    values are dropped. *)
Definition sentinels : list string := ["0"; "No"; "No informa"; "SI"; "Si"].

(** [Series.isin(values)]: only a string cell can equal one of the
    strings. *)
Definition isin (c : Cell) (xs : list string) : bool :=
  match c with CStr s => mem s xs | _ => false end.

(** The [Macrosector] cell of a line, read with the kind pandas infers for
    the whole column. *)
Definition sector_cell (raws : list RawRow) (r : RawRow) : Cell :=
  read_cell (column_kind (map raw_macrosector raws)) (raw_macrosector r).

Definition kept_rows (raws : list RawRow) : list RawRow :=
  filter (fun r => negb (isin (sector_cell raws r) sentinels)) raws.

(** Lines 64-66: the file is read, then filtered. *)
Definition load (raws : list RawRow) : table := map (read_row (kinds raws)) (kept_rows raws).

(** Section 1 (lines 113-125), before any coercion. *)
Definition radar_final_df (raw_data : table) : res Matrix :=
  match groupby_mean2 macrosector nombre_pilar valoracion_ponderada raw_data with
  | Ok entries => Ok (pivot_table snd fst entries)
  | Raise e => Raise e
  end.

(** Lines 222-223: the score and the income coerced in place. *)
Definition section_4_coerce (r : Row) : Row :=
  set_col ColIncome coerce_fill (set_col ColScore coerce_fill r).

(** Line 260: the foundation year coerced in place. *)
Definition section_5_coerce (r : Row) : Row :=
  set_col ColYear to_numeric r.

(** Lines 224-229, on the table of section 4. *)
Definition company_agg_data (raw_data : table) : list Company :=
  positive_income (company_agg raw_data).

(** Section 10 (lines 409-414). *)
Record DivergingRow := mkDiverging {
  d_company : string;
  d_total : Q;
  d_sector : string;
  promedio_sector : Q;
  diferencia_vs_promedio : Q;
  desempeno_relativo : string
}.

Definition superior : string := "Superior al Promedio".
Definition inferior : string := "Inferior al Promedio".

Definition Qmean (qs : list Q) : Q := Qsum qs / inject_Z (Z.of_nat (List.length qs)).

(** [company_agg_data.groupby('Macrosector')['Puntaje_Total_Sostenibilidad'].mean()] *)
Definition sector_avg_score (cs : list Company) : list (string * Q) :=
  map (fun m => (m, Qmean (map total (filter (fun c => String.eqb (company_sector c) m) cs))))
      (sort (unique (map company_sector cs))).

Definition diverging_row (c : Company) (avg : Q) : DivergingRow :=
  let diff := (total c - avg)%Q in
  mkDiverging (company c) (total c) (company_sector c) avg diff
    (if Qle_bool 0 diff then superior else inferior).

(** [pd.merge(company_agg_data, sector_avg_score, on='Macrosector')] *)
Definition merge (cs : list Company) (avgs : list (string * Q)) : list DivergingRow :=
  flat_map (fun c => map (fun a => diverging_row c (snd a))
                         (filter (fun a => String.eqb (fst a) (company_sector c)) avgs)) cs.

(** [sort_values(by=['Macrosector', 'Diferencia_vs_Promedio'])] *)
Definition row_leb (x y : DivergingRow) : bool :=
  String.ltb (d_sector x) (d_sector y)
  || (String.eqb (d_sector x) (d_sector y)
      && Qle_bool (diferencia_vs_promedio x) (diferencia_vs_promedio y)).

Fixpoint insert_row (x : DivergingRow) (ys : list DivergingRow) : list DivergingRow :=
  match ys with
  | [] => [x]
  | y :: ys' => if row_leb x y then x :: ys else y :: insert_row x ys'
  end.

Definition sort_rows (xs : list DivergingRow) : list DivergingRow :=
  fold_right insert_row [] xs.

Definition diverging_data (company_agg_data : list Company) : list DivergingRow :=
  sort_rows (merge company_agg_data (sector_avg_score company_agg_data)).

(** Section 13 (lines 501-506), on the coerced table. *)
Definition var_importance_matrix (raw_data : table) : res Matrix :=
  match groupby_mean2 macrosector variable valoracion_ponderada raw_data with
  | Ok entries => Ok (pivot snd fst entries)
  | Raise e => Raise e
  end.


(** [save_chart_as_html] (lines 72-78) and the image next to it. *)
Definition save_chart (name : string) : io unit :=
  emit (WriteFile ("charts/" ++ name ++ ".html")) ;;
  emit (WriteFile ("img/" ++ name ++ ".png")).

Section Script.
(** Sections 2 to 17, in order, from the filtered table. *)
Variable later_sections : table -> io unit.

(** The module body: the brand file (line 17), the data (line 64), then
    the radar of section 1, whose radial range (line 147) takes the
    largest cell of the matrix: a matrix without columns raises. *)
Definition script (fs : FS) : io unit :=
  eafit_brand <- (match brand_file fs with
                  | Some b => ret b
                  | None => throw (FileNotFoundError brand_name)
                  end) ;;
  raws <- (match csv_file fs with
           | Some r => ret r
           | None => throw (FileNotFoundError csv_name)
           end) ;;
  let raw_data := load raws in
  fig1 <- lift (radar_final_df raw_data) ;;
  (* line 147: [max(radar_final_df.drop(columns='category').max())] *)
  (if null (m_columns fig1)
   then throw (ValueError "max() arg is an empty sequence")
   else ret tt) ;;
  save_chart "01_radar_macroeconomic" ;;
  later_sections raw_data.
End Script.

End V3.

(* ------------------------------------------------------------------ *)
(** ** The shared table and the copies the charts take *)

Module Store.
Import Data.

(** The objects of the heap: [Shared] is the table every chart receives
    ([df] in v2, the module-level [raw_data] in v3); [Fresh] is the last
    copy taken. *)
Inductive Ref := Shared | Fresh.

(** The statements of a chart that write to a data frame. *)
Inductive Op :=
| OCopy                                  (** [df_chart = df.copy()] *)
| OSetCol (x : Ref) (col : Col) (f : Cell -> Cell)  (** [x[col] = f(x[col])] *)
| ODropNa (x : Ref) (col : Col).         (** [x.dropna(subset=[col], inplace=True)] *)

Definition store := list table.

Definition ref_index (st : store) (x : Ref) : nat :=
  match x with Shared => 0 | Fresh => List.length st - 1 end.

Fixpoint update_nth {A} (n : nat) (f : A -> A) (xs : list A) : list A :=
  match xs, n with
  | [], _ => []
  | x :: xs', O => f x :: xs'
  | x :: xs', S n' => x :: update_nth n' f xs'
  end.

Definition is_nan (c : Cell) : bool := match c with CNaN => true | _ => false end.

Definition exec_op (st : store) (o : Op) : store :=
  match o with
  | OCopy => st ++ [nth 0 st []]
  | OSetCol x col f => update_nth (ref_index st x) (map (set_col col f)) st
  | ODropNa x col =>
      update_nth (ref_index st x) (filter (fun r => negb (is_nan (get_col col r)))) st
  end.

Definition exec (st : store) (os : list Op) : store := fold_left exec_op os st.

(** The shared table once the first [k] procedures have run. *)
Definition shared_after (procs : list (list Op)) (k : nat) (t : table) : table :=
  nth 0 (exec [t] (List.concat (firstn k procs))) [].

(** [.astype(str).str.replace('%', '')] *)
Definition strip_percent (c : Cell) : Cell :=
  match c with
  | CStr s => CStr (string_of_list_ascii
                      (filter (fun a => negb (Ascii.eqb a "%"%char)) (list_ascii_of_string s)))
  | c => c
  end.

(** v2: the writes of charts 01 to 15 (lines 91-311). *)
Definition v2_chart_ops : list (list Op) :=
  [ []; []; []; [];
    (* 05 *) [OCopy; OSetCol Fresh ColIncome to_numeric; OSetCol Fresh ColIncome fillna0];
    []; []; []; []; [];
    (* 11 *) [OCopy; OSetCol Fresh ColYear to_numeric; ODropNa Fresh ColYear];
    [];
    (* 13 *) [OCopy; OSetCol Fresh ColMateriality strip_percent;
              OSetCol Fresh ColMateriality coerce_fill;
              OSetCol Fresh ColValoracion coerce_fill];
    []; [] ].

(** v3: the writes of sections 1 to 17 to [raw_data]; every other frame
    a section builds is a new object. *)
Definition v3_section_ops : list (list Op) :=
  [ []; []; [];
    (* 4 *) [OSetCol Shared ColScore coerce_fill; OSetCol Shared ColIncome coerce_fill];
    (* 5 *) [OSetCol Shared ColYear to_numeric];
    []; []; []; []; []; []; []; []; []; []; []; [] ].

End Store.

(* ------------------------------------------------------------------ *)
(** ** Sankey nodes (v3, section 7, lines 333-343) *)

Module Sankey.
Import Data.

(** A row of [sankey_data]: columns [source], [target], [value]. *)
Record Flow := mkFlow { source : string; target : string; value : Q }.



(** [sankey_data[['source', 'target']].values.ravel('K')]: the two object
    columns form one block, so the 'K' order reads the [source] column and
    then the [target] column. *)
Definition ravel_K (fs : list Flow) : list string := map source fs ++ map target fs.

Definition unique_nodes (fs : list Flow) : list string := unique (ravel_K fs).

(** A Python dict with string keys, in insertion order; [d[k] = v]
    overwrites an existing key in place. *)
Definition dict := list (string * nat).

Fixpoint dict_set (k : string) (v : nat) (d : dict) : dict :=
  match d with
  | [] => [(k, v)]
  | (k', v') :: d' => if String.eqb k k' then (k, v) :: d' else (k', v') :: dict_set k v d'
  end.

Fixpoint dict_get (k : string) (d : dict) : option nat :=
  match d with
  | [] => None
  | (k', v) :: d' => if String.eqb k k' then Some v else dict_get k d'
  end.

(** [{node: i for i, node in enumerate(unique_nodes)}] *)
Fixpoint enumerate_into (i : nat) (nodes : list string) (d : dict) : dict :=
  match nodes with
  | [] => d
  | node :: nodes' => enumerate_into (S i) nodes' (dict_set node i d)
  end.

Definition node_mapping (nodes : list string) : dict := enumerate_into 0 nodes [].

(** [sankey_data['source'].map(node_mapping)] and the same for [target]. *)
Definition source_ids (fs : list Flow) : list (option nat) :=
  map (fun f => dict_get (source f) (node_mapping (unique_nodes fs))) fs.
Definition target_ids (fs : list Flow) : list (option nat) :=
  map (fun f => dict_get (target f) (node_mapping (unique_nodes fs))) fs.

(** Position of the first occurrence ([list.index]); the length when
    absent. *)
Fixpoint index (x : string) (xs : list string) : nat :=
  match xs with
  | [] => 0
  | y :: ys => if String.eqb x y then 0 else S (index x ys)
  end.

End Sankey.

(* ------------------------------------------------------------------ *)
(** ** The data of the other v2 charts *)

Module V2Charts.
Import Data Script.

(** An insertion sort: [x] goes before the first [y] with [leb x y]; equal
    elements keep their order. *)
Fixpoint insert_by {A} (leb : A -> A -> bool) (x : A) (ys : list A) : list A :=
  match ys with
  | [] => [x]
  | y :: ys' => if leb x y then x :: ys else y :: insert_by leb x ys'
  end.

Definition sort_by {A} (leb : A -> A -> bool) (xs : list A) : list A :=
  fold_right (insert_by leb) [] xs.

(** [df.groupby(key)[col].sum()] *)
Definition groupby_sum (key : Row -> string) (col : Row -> Cell) (t : table) : list (string * Q) :=
  map (fun k => (k, sum (map col (group_rows key k t)))) (group_keys key t).

(** Chart 09 (lines 203-215):
    [.sum().sort_values(ascending=False).head(10)]. *)
Definition chart_09_top10 (df : table) : list (string * Q) :=
  firstn 10 (sort_by (fun x y => Qle_bool (snd y) (snd x))
                     (groupby_sum razon_social valoracion_ponderada df)).

(** Chart 10 (lines 217-229): [.sum().sort_values(ascending=True).head(10)]. *)
Definition chart_10_bottom10 (df : table) : list (string * Q) :=
  firstn 10 (sort_by (fun x y => Qle_bool (snd x) (snd y))
                     (groupby_sum razon_social valoracion_ponderada df)).

(** [df.groupby(key)[col].mean()] *)
Fixpoint mean_groups1 (col : Row -> Cell) (key : Row -> string) (t : table)
    (ks : list string) : res (list (string * num)) :=
  match ks with
  | [] => Ok []
  | k :: ks' =>
      match mean (map col (group_rows key k t)) with
      | Raise e => Raise e
      | Ok m => match mean_groups1 col key t ks' with
                | Raise e => Raise e
                | Ok rest => Ok ((k, m) :: rest)
                end
      end
  end.

Definition groupby_mean (key : Row -> string) (col : Row -> Cell) (t : table)
    : res (list (string * num)) :=
  mean_groups1 col key t (group_keys key t).

(** The order of [sort_values(ascending=False)]: larger first, NaN last. *)
Definition num_geb (x y : string * num) : bool :=
  match snd x, snd y with
  | NVal a, NVal b => Qle_bool b a
  | _, NNaN => true
  | NNaN, NVal _ => false
  end.

(** Charts 02 (lines 107-117) and 14 (lines 287-297): the mean score by
    pillar, resp. by sector, highest first. *)
Definition mean_ranking (key : Row -> string) (df : table) : res (list (string * num)) :=
  match groupby_mean key valoracion_ponderada df with
  | Ok data => Ok (sort_by num_geb data)
  | Raise e => Raise e
  end.

Definition chart_02_data (df : table) := mean_ranking nombre_pilar df.
Definition chart_14_data (df : table) := mean_ranking macrosector df.

(** [drop_duplicates(subset='Razón social')]: the first row of each
    company. *)
Fixpoint drop_duplicates (seen : list string) (rows : table) : table :=
  match rows with
  | [] => []
  | r :: rows' =>
      if mem (razon_social r) seen then drop_duplicates seen rows'
      else r :: drop_duplicates (razon_social r :: seen) rows'
  end.

(** Chart 11 (lines 231-245): the year coerced on a copy, the rows without
    a year dropped, one row per company. *)
Definition chart_11_unique_companies (df : table) : table :=
  let df_chart := map (set_col ColYear to_numeric) df in
  let df_chart := filter (fun r => negb (Store.is_nan (ano_fundacion r))) df_chart in
  drop_duplicates [] df_chart.




End V2Charts.


(* ------------------------------------------------------------------ *)
(** ** [wrap_text] on a Python [str] (v3, lines 82-106)

    The labels of the charts come from the CSV, UTF-8 text that pandas
    decodes into [str]: [len] counts code points and [split()] cuts at
    Unicode whitespace. Here a character is the list of the UTF-8 bytes of
    one code point. *)

Module WrapStr.
Local Open Scope nat_scope.

Definition char := list ascii.
Definition text := list char.

Definition is_cont (b : ascii) : bool :=
  let n := nat_of_ascii b in (128 <=? n) && (n <? 192).

(** Bytes to code points: a continuation byte (0x80-0xBF) belongs to the
    character before it. The first component holds continuation bytes
    with no character before them (none in valid UTF-8). *)
Fixpoint group (s : list ascii) : list ascii * text :=
  match s with
  | [] => ([], [])
  | b :: s' =>
      let '(cont, cs) := group s' in
      if is_cont b then (b :: cont, cs) else ([], (b :: cont) :: cs)
  end.

Definition chars (s : string) : text :=
  let '(cont, cs) := group (list_ascii_of_string s) in
  if null cont then cs else cont :: cs.

Definition to_string (t : text) : string := string_of_list_ascii (List.concat t).

(** [str.isspace]: U+0009-U+000D, U+001C-U+0020, U+0085, U+00A0,
    U+1680, U+2000-U+200A, U+2028, U+2029, U+202F, U+205F, U+3000. *)
Definition is_space (c : char) : bool :=
  match map nat_of_ascii c with
  | [n] => ((9 <=? n) && (n <=? 13)) || ((28 <=? n) && (n <=? 32))
  | [a; n] => (a =? 194) && ((n =? 133) || (n =? 160))
  | [a; b; n] =>
      ((a =? 225) && (b =? 154) && (n =? 128))
      || ((a =? 226) && (b =? 128)
          && (((128 <=? n) && (n <=? 138)) || (n =? 168) || (n =? 169) || (n =? 175)))
      || ((a =? 226) && (b =? 129) && (n =? 159))
      || ((a =? 227) && (b =? 128) && (n =? 128))
  | _ => false
  end.

Definition push (c : char) (ps : list text) : list text :=
  match ps with
  | [] => [[c]]
  | p :: ps' => (c :: p) :: ps'
  end.

Fixpoint split_ws (s : text) : list text :=
  match s with
  | [] => [[]]
  | c :: t => if is_space c then [] :: split_ws t else push c (split_ws t)
  end.

(** [str.split()] *)
Definition split (s : text) : list text := filter (fun w => negb (null w)) (split_ws s).

(** [sep.join(xs)] *)
Fixpoint join (sep : text) (xs : list text) : text :=
  match xs with
  | [] => []
  | [x] => x
  | x :: xs' => x ++ sep ++ join sep xs'
  end.

Definition space : text := [[" "%char]].
Definition br : text := [["<"%char]; ["b"%char]; ["r"%char]; [">"%char]].

Fixpoint wrap_loop (max_length : Z) (words : list text) (lines : list text)
    (current_line : list text) (current_length : nat)
    : list text * list text * nat :=
  match words with
  | [] => (lines, current_line, current_length)
  | word :: rest =>
      if Z.ltb max_length (Z.of_nat (current_length + List.length word + List.length current_line))
         && negb (null current_line)
      then wrap_loop max_length rest (lines ++ [join space current_line])
             [word] (List.length word)
      else wrap_loop max_length rest lines (current_line ++ [word])
             (current_length + List.length word)
  end.

Definition wrap_text (text : string) (max_length : Z) : string :=
  let t := chars text in
  if Z.leb (Z.of_nat (List.length t)) max_length then text
  else
    let '(lines, current_line, _) := wrap_loop max_length (split t) [] [] 0 in
    let lines := if null current_line then lines
                 else lines ++ [join space current_line] in
    to_string (join br lines).

End WrapStr.


(* ------------------------------------------------------------------ *)
(** ** Variant v3: the sections after the radar *)

Module V3Sections.
Import Data Script V3.




























End V3Sections.

(* ------------------------------------------------------------------ *)
(** ** Definitions the statements use, and sample inputs *)

Module Fixtures.
Import Data Script Store V3.
Local Open Scope string_scope.

Definition no_chart (out : list event) : bool := forallb (fun e => negb (is_chart e)) out.

(** The events of [setup_environment] before it opens the files. *)
Definition setup_prefix (fs : FS) : list event :=
  if charts_dir fs then [] else [MakeDir "charts"; Print "Directorio 'charts/' creado."].


Definition brand0 : Brand := mkBrand ["#000000"] "Arial".

(** A score that is neither a number nor a missing-value spelling. *)
Definition raw_text_score : RawRow :=
  mkRawRow "Empresa A" "Industria" "Ambiental" "Pilar 1" "Variable 1"
           "abc" "100" "1990" "5%" "3".



(** The mean score of the companies of sector [m]. *)
Definition sector_mean (cs : list Company) (m : string) : Q :=
  Qmean (map total (filter (fun c => String.eqb (company_sector c) m) cs)).

(** The writes of a chart only reach a copy taken before them. *)
Fixpoint copy_only (copied : bool) (os : list Op) : bool :=
  match os with
  | [] => true
  | OCopy :: os' => copy_only true os'
  | OSetCol Fresh _ _ :: os' | ODropNa Fresh _ :: os' => copied && copy_only copied os'
  | _ :: _ => false
  end.

(** One company, one score given and one empty. *)
Definition raws_partial_score : list RawRow :=
  [mkRawRow "Empresa A" "Industria" "Ambiental" "Pilar 1" "Variable 1"
            "2" "100" "1990" "5%" "3";
   mkRawRow "Empresa A" "Industria" "Social" "Pilar 2" "Variable 2"
            "" "100" "1990" "5%" "3"].

Definition raws_empty_sector : list RawRow :=
  [mkRawRow "Empresa A" "Industria" "Ambiental" "Pilar 1" "Variable 1"
            "2" "100" "1990" "5%" "3";
   mkRawRow "Empresa B" "Servicios" "Ambiental" "Pilar 1" "Variable 1"
            "" "200" "1985" "5%" "3"].



End Fixtures.

(* ================================================================== *)
(** * Proofs *)

Module WrapTextFacts.
Import WrapText.
Local Open Scope nat_scope.

Lemma wrap_text_finish (t : text) (m : Z) :
  wrap_text t m =
  if Z.leb (Z.of_nat (List.length t)) m then t
  else join br (finish (wrap_loop m (split t) [] [] 0)).
Proof.
  unfold wrap_text. destruct (Z.leb _ _); [reflexivity|].
  destruct (wrap_loop m (split t) [] [] 0) as [[l c] n]. reflexivity.
Qed.

Lemma join_snoc (sep : text) (cur : list text) (w : text) :
  cur <> [] -> join sep (cur ++ [w]) = join sep cur ++ sep ++ w.
Proof.
  induction cur as [|x cur IH]; intros Hne; [congruence|].
  destruct cur as [|y cur]; [reflexivity|].
  change (x ++ sep ++ join sep ((y :: cur) ++ [w])
          = (x ++ sep ++ join sep (y :: cur)) ++ sep ++ w).
  rewrite IH by discriminate. rewrite !app_assoc. reflexivity.
Qed.

Lemma sum_len_snoc (cur : list text) (w : text) :
  sum_len (cur ++ [w]) = sum_len cur + List.length w.
Proof. induction cur as [|x cur IH]; simpl; [lia|rewrite IH; lia]. Qed.

Lemma length_join_space (cur : list text) :
  cur <> [] -> List.length (join space cur) = sum_len cur + List.length cur - 1.
Proof.
  induction cur as [|x cur IH]; intros Hne; [congruence|].
  destruct cur as [|y cur]; [simpl; lia|].
  change (join space (x :: y :: cur)) with (x ++ space ++ join space (y :: cur)).
  rewrite !length_app, IH by discriminate. simpl. lia.
Qed.

(** The test of line 95 is the test "the line with the next word appended
    is longer than [max_length]". *)
Lemma loop_test_is_line_length (m : Z) (cur : list text) (w : text) :
  Z.ltb m (Z.of_nat (sum_len cur + List.length w + List.length cur))
    && negb (null cur)
  = negb (null cur) && Z.ltb m (Z.of_nat (List.length (join space (cur ++ [w])))).
Proof.
  destruct cur as [|x cur]; [simpl; apply andb_false_r|].
  rewrite join_snoc by discriminate.
  rewrite !length_app, length_join_space by discriminate.
  simpl negb. rewrite andb_true_r, andb_true_l. f_equal. simpl. lia.
Qed.

Lemma wrap_loop_pack (m : Z) (ws : list text) :
  forall done cur n, n = sum_len cur ->
  finish (wrap_loop m ws (map (join space) done) cur n)
  = map (join space) (pack m ws done cur).
Proof.
  induction ws as [|w ws IH]; intros done cur n Hn.
  - simpl. destruct (null cur); [reflexivity|]. now rewrite map_app.
  - simpl. subst n. rewrite loop_test_is_line_length.
    destruct (negb (null cur) && _).
    + rewrite <- (IH (done ++ [cur]) [w] (List.length w)) by (simpl; lia).
      now rewrite map_app.
    + apply IH. now rewrite sum_len_snoc.
Qed.

(** *** Reading the words back from the output *)

Lemma split_ws_not_nil (s : text) : split_ws s <> [].
Proof.
  induction s as [|c s IH]; simpl; [discriminate|].
  destruct (is_space c); [discriminate|].
  destruct (split_ws s); [congruence|discriminate].
Qed.

Lemma split_ws_app_space (a b : text) :
  existsb is_space a = false -> split_ws (a ++ " "%char :: b) = a :: split_ws b.
Proof.
  induction a as [|c a IH]; intros H; [reflexivity|].
  simpl in H. apply orb_false_iff in H as [Hc Ha].
  simpl. rewrite Hc, IH by exact Ha. reflexivity.
Qed.

Lemma split_ws_free (a : text) :
  existsb is_space a = false -> split_ws a = [a].
Proof.
  induction a as [|c a IH]; intros H; [reflexivity|].
  simpl in H. apply orb_false_iff in H as [Hc Ha].
  simpl. rewrite Hc, IH by exact Ha. reflexivity.
Qed.

Lemma split_join_space (g : list text) :
  g <> [] -> Forall is_word g -> split (join space g) = g.
Proof.
  induction g as [|x g IH]; intros Hne Hw; [congruence|].
  inversion Hw as [|? ? [Hx [Hxs _]] Hg]; subst.
  destruct g as [|y g].
  - unfold split. simpl join. rewrite split_ws_free by exact Hxs.
    simpl. destruct x; [congruence|reflexivity].
  - change (join space (x :: y :: g)) with (x ++ " "%char :: join space (y :: g)).
    unfold split in *. rewrite split_ws_app_space by exact Hxs.
    destruct x as [|c x]; [congruence|].
    change (filter nonempty ((c :: x) :: split_ws (join space (y :: g))))
      with ((c :: x) :: filter nonempty (split_ws (join space (y :: g)))).
    f_equal. apply IH; [discriminate|exact Hg].
Qed.

Ltac goal_starts_br :=
  match goal with
  | |- starts_br ?x = false => destruct (starts_br x) eqn:E; [|reflexivity]
  end.

Lemma is_br_true (c1 c2 c3 c4 : ascii) :
  is_br c1 c2 c3 c4 = true ->
  c1 = "<"%char /\ c2 = "b"%char /\ c3 = "r"%char /\ c4 = ">"%char.
Proof.
  unfold is_br. rewrite !andb_true_iff, !Ascii.eqb_eq. tauto.
Qed.

Ltac close_br :=
  first
    [ discriminate
    | match goal with
      | E : starts_br _ = true |- _ =>
          apply is_br_true in E; destruct E as (? & ? & ? & ?); discriminate
      end ].

Lemma starts_br_app (a b : text) :
  starts_br a = true -> starts_br (a ++ b) = true.
Proof. destruct a as [|c1 [|c2 [|c3 [|c4 a]]]]; simpl; easy. Qed.

Lemma starts_br_long (a b : text) :
  4 <= List.length a -> starts_br (a ++ b) = starts_br a.
Proof. destruct a as [|c1 [|c2 [|c3 [|c4 a]]]]; simpl; intros; first [lia | reflexivity]. Qed.

Lemma split_br_cons (c : ascii) (t : text) :
  split_br (c :: t) =
  if starts_br (c :: t) then [] :: split_br (skipn 3 t) else push c (split_br t).
Proof. destruct t as [|c2 [|c3 [|c4 r]]]; reflexivity. Qed.

(** A string without the marker cannot form one with the first three
    characters of a following marker: ["<br>"] has no proper border. *)
Lemma contains_br_app_marker (a : text) :
  contains_br a = false -> contains_br (a ++ ["<"; "b"; "r"]%char) = false.
Proof.
  induction a as [|c a IH]; intros H; [reflexivity|].
  cbn [contains_br] in H. apply orb_false_iff in H as [Hs Ha].
  rewrite <- app_comm_cons. cbn [contains_br].
  rewrite IH by exact Ha. rewrite orb_false_r.
  destruct a as [|c2 [|c3 [|c4 a]]].
  - cbn [app]. goal_starts_br. close_br.
  - cbn [app]. goal_starts_br. close_br.
  - cbn [app]. goal_starts_br. close_br.
  - rewrite app_comm_cons, starts_br_long by (simpl; lia). exact Hs.
Qed.

Lemma contains_br_app_space (a b : text) :
  contains_br a = false -> contains_br b = false ->
  contains_br (a ++ " "%char :: b) = false.
Proof.
  induction a as [|c a IH]; intros Ha Hb.
  - cbn [app contains_br].
    rewrite Hb, orb_false_r.
    destruct (starts_br _) eqn:E; [|reflexivity].
    destruct b as [|c2 [|c3 [|c4 b]]]; close_br.
  - cbn [contains_br] in Ha. apply orb_false_iff in Ha as [Hs Ha].
    rewrite <- app_comm_cons. cbn [contains_br].
    rewrite IH by assumption. rewrite orb_false_r.
    destruct a as [|c2 [|c3 [|c4 a]]].
    + cbn [app]. goal_starts_br.
      destruct b as [|c3 [|c4 b]]; close_br.
    + cbn [app]. goal_starts_br.
      destruct b as [|c4 b]; close_br.
    + cbn [app]. goal_starts_br. close_br.
    + rewrite app_comm_cons, starts_br_long by (simpl; lia). exact Hs.
Qed.

Lemma split_br_app_marker (a b : text) :
  contains_br (a ++ ["<"; "b"; "r"]%char) = false ->
  split_br (a ++ br ++ b) = a :: split_br b.
Proof.
  induction a as [|c a IH]; intros H; [reflexivity|].
  rewrite <- app_comm_cons in H. cbn [contains_br] in H.
  apply orb_false_iff in H as [Hs Ha].
  rewrite <- app_comm_cons, split_br_cons.
  replace (starts_br (c :: a ++ br ++ b)) with false.
  - rewrite IH by exact Ha. reflexivity.
  - rewrite <- Hs.
    replace (c :: a ++ br ++ b) with ((c :: a ++ ["<"; "b"; "r"]%char) ++ ">"%char :: b)
      by (simpl; rewrite <- app_assoc; reflexivity).
    rewrite starts_br_long; [reflexivity|]. simpl. rewrite length_app. simpl. lia.
Qed.

Lemma split_br_free (a : text) : contains_br a = false -> split_br a = [a].
Proof.
  induction a as [|c a IH]; intros H; [reflexivity|].
  cbn [contains_br] in H. apply orb_false_iff in H as [Hs Ha].
  rewrite split_br_cons, Hs, IH by exact Ha. reflexivity.
Qed.

Lemma contains_br_join_space (g : list text) :
  Forall (fun w => contains_br w = false) g -> contains_br (join space g) = false.
Proof.
  induction g as [|x g IH]; intros H; [reflexivity|].
  inversion H as [|? ? Hx Hg]; subst.
  destruct g as [|y g]; [exact Hx|].
  change (join space (x :: y :: g)) with (x ++ " "%char :: join space (y :: g)).
  apply contains_br_app_space; [exact Hx|apply IH, Hg].
Qed.

Lemma split_br_join (lines : list text) :
  lines <> [] -> Forall (fun l => contains_br l = false) lines ->
  split_br (join br lines) = lines.
Proof.
  induction lines as [|x lines IH]; intros Hne H; [congruence|].
  inversion H as [|? ? Hx Hl]; subst.
  destruct lines as [|y lines].
  - apply split_br_free, Hx.
  - change (join br (x :: y :: lines)) with (x ++ br ++ join br (y :: lines)).
    rewrite split_br_app_marker by (apply contains_br_app_marker, Hx).
    f_equal. apply IH; [discriminate|exact Hl].
Qed.

Lemma split_ws_head (s : text) :
  exists w0 rest r, split_ws s = w0 :: rest /\ s = w0 ++ r.
Proof.
  induction s as [|c t IH].
  - exists [], [], []. split; reflexivity.
  - destruct IH as (w0 & rest & r & E1 & E2). simpl.
    destruct (is_space c).
    + exists [], (split_ws t), (c :: t). split; reflexivity.
    + rewrite E1. exists (c :: w0), rest, r. subst t. split; reflexivity.
Qed.

Lemma split_ws_pieces (s : text) :
  contains_br s = false ->
  Forall (fun w => existsb is_space w = false /\ contains_br w = false) (split_ws s).
Proof.
  induction s as [|c t IH]; intros H.
  - repeat constructor.
  - cbn [contains_br] in H. apply orb_false_iff in H as [Hs Ht].
    specialize (IH Ht). simpl. destruct (is_space c) eqn:Hc.
    + constructor; [split; reflexivity|exact IH].
    + destruct (split_ws_head t) as (w0 & rest & r & E1 & E2).
      rewrite E1 in IH |- *. inversion IH as [|? ? [Hw0s Hw0b] Hrest]; subst.
      constructor; [|exact Hrest]. split.
      * simpl. rewrite Hc. exact Hw0s.
      * cbn [contains_br]. rewrite Hw0b, orb_false_r.
        destruct (starts_br (c :: w0)) eqn:E; [|reflexivity].
        apply (starts_br_app _ r) in E. rewrite <- Hs. symmetry. exact E.
Qed.

Lemma split_words (t : text) : contains_br t = false -> Forall is_word (split t).
Proof.
  intros H. apply split_ws_pieces in H. rewrite Forall_forall in H |- *.
  intros w Hw. unfold split in Hw. apply filter_In in Hw as [Hin Hne].
  destruct (H w Hin) as [Hs Hb]. repeat split; try assumption.
  destruct w; [discriminate|congruence].
Qed.

Lemma split_ws_length (s w : text) : In w (split_ws s) -> List.length w <= List.length s.
Proof.
  revert w. induction s as [|c t IH]; intros w Hw.
  - destruct Hw as [<-|[]]. reflexivity.
  - simpl in Hw |- *. destruct (is_space c).
    + destruct Hw as [<-|Hw]; [simpl; lia|]. specialize (IH w Hw). lia.
    + destruct (split_ws_head t) as (w0 & rest & r & E1 & _).
      rewrite E1 in Hw, IH. destruct Hw as [<-|Hw].
      * specialize (IH w0 (or_introl eq_refl)). simpl. lia.
      * specialize (IH w (or_intror Hw)). lia.
Qed.

Lemma split_length (t w : text) : In w (split t) -> List.length w <= List.length t.
Proof. unfold split. intros Hw. apply filter_In in Hw as [Hw _]. now apply split_ws_length. Qed.

Lemma pack_concat (m : Z) (ws : list text) :
  forall done cur, List.concat (pack m ws done cur) = List.concat done ++ cur ++ ws.
Proof.
  induction ws as [|w ws IH]; intros done cur; simpl.
  - destruct cur; simpl; rewrite ?concat_app; simpl; rewrite ?app_nil_r; reflexivity.
  - destruct (negb (null cur) && _); rewrite IH.
    + rewrite concat_app. simpl. rewrite !app_nil_r, <- !app_assoc. reflexivity.
    + rewrite <- !app_assoc. reflexivity.
Qed.

Lemma pack_groups_nonempty (m : Z) (ws : list text) :
  forall done cur, Forall (fun g => g <> []) done ->
  Forall (fun g => g <> []) (pack m ws done cur).
Proof.
  induction ws as [|w ws IH]; intros done cur H; simpl.
  - destruct cur; [exact H|]. apply Forall_app; split; [exact H|].
    constructor; [discriminate|constructor].
  - destruct cur as [|x cur]; simpl.
    + apply IH, H.
    + destruct (Z.ltb _ _); apply IH; [|exact H].
      apply Forall_app; split; [exact H|]. constructor; [discriminate|constructor].
Qed.

(** A word longer than the threshold always ends up as a line of its own. *)
Lemma pack_long_word (m : Z) (w : text) :
  (m < Z.of_nat (List.length w))%Z ->
  forall ws done cur, In w ws \/ In [w] done \/ cur = [w] ->
  In [w] (pack m ws done cur).
Proof.
  intros Hw ws. induction ws as [|v ws IH]; intros done cur Hin; cbn [pack].
  - destruct Hin as [ [] | [Hd | -> ] ].
    + destruct cur; cbn [null]; [exact Hd|]. apply in_or_app. left; exact Hd.
    + cbn [null]. apply in_or_app. right; left; reflexivity.
  - destruct Hin as [ [-> | Hin] | [Hd | -> ] ].
    + destruct cur as [|x cur]; cbn [null negb andb].
      * apply IH. right; right; reflexivity.
      * replace (Z.ltb m _) with true.
        -- apply IH. right; right; reflexivity.
        -- symmetry. apply Z.ltb_lt.
           rewrite join_snoc by discriminate. rewrite !length_app. lia.
    + destruct (negb (null cur) && _); apply IH; left; exact Hin.
    + destruct (negb (null cur) && _); apply IH; right; left;
        [apply in_or_app; left|]; exact Hd.
    + replace (negb (null [w]) && _) with true.
      * apply IH. right; left. apply in_or_app. right; left; reflexivity.
      * symmetry. cbn [null negb andb]. apply Z.ltb_lt.
        rewrite join_snoc by discriminate. rewrite !length_app. simpl. lia.
Qed.

(** [wrap_text] computed through the greedy packing of the words. *)
Lemma wrap_text_as_pack (t : text) (m : Z) :
  wrap_text t m = wrap_text_spec t m.
Proof.
  rewrite wrap_text_finish. unfold wrap_text_spec.
  destruct (Z.leb _ _); [reflexivity|].
  f_equal. apply (wrap_loop_pack m (split t) [] [] 0). reflexivity.
Qed.

(** C6: [wrap_text] returns a label of at most [max_length] characters
    unchanged; a longer one is split into its whitespace-separated words,
    packed greedily into lines (a new line is started exactly when
    appending the next word to the non-empty current line would make it
    longer than the threshold), and the lines are joined by ["<br>"]. *)
Theorem wrap_text_greedy_lines (t : text) (max_length : Z) :
  wrap_text t max_length = wrap_text_spec t max_length.
Proof.
  rewrite wrap_text_finish. unfold wrap_text_spec.
  destruct (Z.leb _ _); [reflexivity|].
  f_equal. apply (wrap_loop_pack max_length (split t) [] [] 0). reflexivity.
Qed.

Lemma br_words_lines (groups : list (list text)) :
  Forall (fun g => g <> [] /\ Forall is_word g) groups ->
  br_words (join br (map (join space) groups)) = List.concat groups
  /\ (groups <> [] ->
      split_br (join br (map (join space) groups)) = map (join space) groups).
Proof.
  intros H. destruct groups as [|g groups]; [split; [reflexivity|congruence]|].
  assert (Hl : split_br (join br (map (join space) (g :: groups)))
               = map (join space) (g :: groups)).
  { apply split_br_join; [discriminate|].
    rewrite Forall_map. eapply Forall_impl; [|exact H].
    intros g' [_ Hg']. apply contains_br_join_space.
    eapply Forall_impl; [|exact Hg']. intros w (_ & _ & Hw). exact Hw. }
  split; [|intros _; exact Hl].
  unfold br_words. rewrite Hl, map_map.
  rewrite (map_ext_in _ (fun g' => g')).
  - now rewrite map_id.
  - intros g' Hin. rewrite Forall_forall in H. destruct (H g' Hin) as [Hne Hw].
    apply split_join_space; assumption.
Qed.

(** C10 (as amended): for a label that does not itself contain the marker
    ["<br>"], cutting the output of [wrap_text] at the markers and then at
    whitespace gives back exactly the whitespace-separated words of the
    label, in order; no word is cut, and a word longer than the threshold
    is one of the output's lines on its own. *)
Theorem wrap_text_keeps_words (t : text) (max_length : Z) :
  contains_br t = false ->
  br_words (wrap_text t max_length) = split t
  /\ (forall w, In w (split t) -> (max_length < Z.of_nat (List.length w))%Z ->
        In w (split_br (wrap_text t max_length))).
Proof.
  intros Ht. pose proof (split_words t Ht) as Hw.
  rewrite wrap_text_as_pack. unfold wrap_text_spec.
  destruct (Z.leb _ _) eqn:Hs.
  - split.
    + unfold br_words. rewrite split_br_free by exact Ht. simpl. apply app_nil_r.
    + intros w Hin Hlen. apply split_length in Hin. apply Z.leb_le in Hs. lia.
  - set (G := pack max_length (split t) [] []).
    assert (HG : Forall (fun g => g <> [] /\ Forall is_word g) G).
    { pose proof (pack_groups_nonempty max_length (split t) [] [] (Forall_nil _)) as Hne.
      fold G in Hne. rewrite Forall_forall in Hne |- *. intros g Hg.
      split; [now apply Hne|]. rewrite Forall_forall in Hw |- *.
      intros w Hin. apply Hw.
      assert (Hc : List.concat G = split t) by (unfold G; rewrite pack_concat; reflexivity).
      rewrite <- Hc. apply in_concat. eauto. }
    destruct (br_words_lines G HG) as [H1 H2]. split.
    + rewrite H1. unfold G. rewrite pack_concat. reflexivity.
    + intros w Hin Hlen.
      assert (Hin' : In [w] G) by (apply (pack_long_word max_length w Hlen); left; exact Hin).
      rewrite H2 by (destruct G; [destruct Hin'|discriminate]).
      change w with (join space [w]). apply in_map. exact Hin'.
Qed.

Example wrap_label_pillar :
  wrap_text label_pillar 25
  = list_ascii_of_string "Gestion ambiental y<br>cambio climatico global".
Proof. reflexivity. Qed.

Lemma wrap_text_keeps_words_witness :
  contains_br label_pillar = false
  /\ (br_words (wrap_text label_pillar 25) = split label_pillar
      /\ (forall w, In w (split label_pillar) -> (25 < Z.of_nat (List.length w))%Z ->
            In w (split_br (wrap_text label_pillar 25)))).
Proof.
  split; [reflexivity|].
  apply (wrap_text_keeps_words label_pillar 25). reflexivity.
Defined.

(** C10 fails as stated: a label of at most 25 characters containing the
    marker is returned unchanged, and cutting it at the marker splits the
    single word ["ab<br>cd"] into ["ab"] and ["cd"]. *)
Lemma wrap_text_marker_word_cut :
  br_words (wrap_text label_marker 25) <> split label_marker.
Proof. vm_compute. discriminate. Qed.

End WrapTextFacts.

Module SankeyFacts.
Import Data Sankey.
Local Open Scope nat_scope.

Lemma mem_In (x : string) (xs : list string) : mem x xs = true <-> In x xs.
Proof.
  unfold mem. rewrite existsb_exists. split.
  - intros (y & Hy & E). apply String.eqb_eq in E. subst. exact Hy.
  - intros H. exists x. split; [exact H|apply String.eqb_refl].
Qed.

Lemma mem_false (x : string) (xs : list string) : mem x xs = false <-> ~ In x xs.
Proof. rewrite <- mem_In. destruct (mem x xs); split; congruence. Qed.

Lemma unique_aux_In (x : string) (xs seen : list string) :
  In x (unique_aux seen xs) <-> In x xs /\ ~ In x seen.
Proof.
  revert seen. induction xs as [|z xs IH]; intros seen; simpl.
  - tauto.
  - destruct (mem z seen) eqn:Hz.
    + apply mem_In in Hz. rewrite IH. split.
      * tauto.
      * intros [[<-|H] Hn]; [contradiction|tauto].
    + apply mem_false in Hz. simpl. rewrite IH. simpl. split.
      * intros [<-|[H1 H2]]; [tauto|]. split; [tauto|]. tauto.
      * intros [[<-|H1] H2]; [tauto|].
        destruct (String.eqb_spec z x); [tauto|]. right. split; [exact H1|].
        intros [E|E]; [congruence|contradiction].
Qed.

Lemma unique_aux_NoDup (xs seen : list string) : NoDup (unique_aux seen xs).
Proof.
  revert seen. induction xs as [|z xs IH]; intros seen; simpl.
  - constructor.
  - destruct (mem z seen); [apply IH|]. constructor; [|apply IH].
    rewrite unique_aux_In. simpl. tauto.
Qed.

Lemma index_cons_neq (x z : string) (xs : list string) :
  x <> z -> index x (z :: xs) = S (index x xs).
Proof. intros H. simpl. destruct (String.eqb_spec x z); congruence. Qed.

Lemma index_cons_eq (x : string) (xs : list string) : index x (x :: xs) = 0.
Proof. simpl. now rewrite String.eqb_refl. Qed.

(** [pd.unique] keeps the order of first appearance. *)
Lemma unique_aux_order (xs seen : list string) (x y : string) :
  In x xs -> In y xs -> ~ In x seen -> ~ In y seen ->
  (index x (unique_aux seen xs) < index y (unique_aux seen xs)
   <-> index x xs < index y xs)%nat.
Proof.
  revert seen. induction xs as [|z xs IH]; intros seen Hx Hy Hxs Hys; [destruct Hx|].
  simpl unique_aux. destruct (mem z seen) eqn:Hz.
  - apply mem_In in Hz.
    assert (x <> z) by (intros ->; contradiction).
    assert (y <> z) by (intros ->; contradiction).
    rewrite !(index_cons_neq _ z) by assumption.
    destruct Hx as [->|Hx]; [congruence|]. destruct Hy as [->|Hy]; [congruence|].
    rewrite <- Nat.succ_lt_mono. apply IH; assumption.
  - destruct (String.eqb_spec x z) as [->|Hxz]; destruct (String.eqb_spec y z) as [->|Hyz].
    + rewrite !index_cons_eq. lia.
    + rewrite !index_cons_eq, !(index_cons_neq y z) by assumption. lia.
    + rewrite !index_cons_eq, !(index_cons_neq x z) by assumption. lia.
    + rewrite !(index_cons_neq x z), !(index_cons_neq y z) by assumption.
      destruct Hx as [->|Hx]; [congruence|]. destruct Hy as [->|Hy]; [congruence|].
      rewrite <- !Nat.succ_lt_mono.
      apply IH; [assumption|assumption| |].
      * intros [E|E]; [congruence|contradiction].
      * intros [E|E]; [congruence|contradiction].
Qed.

Lemma dict_get_set (x y : string) (v : nat) (d : dict) :
  dict_get x (dict_set y v d) = if String.eqb x y then Some v else dict_get x d.
Proof.
  induction d as [|[k w] d IH]; simpl.
  - reflexivity.
  - destruct (String.eqb_spec y k) as [->|Hyk]; simpl.
    + destruct (String.eqb x k); reflexivity.
    + rewrite IH. destruct (String.eqb_spec x y) as [->|]; [|reflexivity].
      destruct (String.eqb_spec y k); [congruence|reflexivity].
Qed.

Lemma enumerate_into_get (nodes : list string) :
  NoDup nodes -> forall k d x,
  dict_get x (enumerate_into k nodes d)
  = if mem x nodes then Some (k + index x nodes)%nat else dict_get x d.
Proof.
  induction nodes as [|y nodes IH]; intros Hnd k d x; [reflexivity|].
  inversion Hnd as [|? ? Hy Hnd']; subst. simpl enumerate_into.
  rewrite IH by exact Hnd'. rewrite dict_get_set.
  unfold mem. simpl existsb. fold (mem x nodes).
  destruct (String.eqb_spec x y) as [->|Hxy].
  - replace (mem y nodes) with false by (symmetry; apply mem_false, Hy).
    rewrite index_cons_eq. simpl. f_equal. lia.
  - rewrite index_cons_neq by exact Hxy. simpl.
    destruct (mem x nodes); [f_equal; lia|reflexivity].
Qed.

Lemma nth_error_index (x : string) (xs : list string) :
  In x xs -> nth_error xs (index x xs) = Some x.
Proof.
  induction xs as [|y xs IH]; intros H; [destruct H|].
  destruct (String.eqb_spec x y) as [->|Hxy].
  - now rewrite index_cons_eq.
  - rewrite index_cons_neq by exact Hxy. simpl. apply IH.
    destruct H as [->|H]; [congruence|exact H].
Qed.

Lemma index_nth_error (x : string) (xs : list string) (i : nat) :
  NoDup xs -> nth_error xs i = Some x -> index x xs = i.
Proof.
  revert i. induction xs as [|y xs IH]; intros i Hnd H; [destruct i; discriminate|].
  inversion Hnd as [|? ? Hy Hnd']; subst.
  destruct i as [|i]; simpl in H.
  - injection H as ->. apply index_cons_eq.
  - assert (x <> y) by (intros ->; apply Hy; eapply nth_error_In; exact H).
    rewrite index_cons_neq by assumption. f_equal. apply IH; assumption.
Qed.

Lemma node_mapping_get (nodes : list string) (x : string) :
  NoDup nodes ->
  dict_get x (node_mapping nodes) = if mem x nodes then Some (index x nodes) else None.
Proof.
  intros Hnd. unfold node_mapping. rewrite enumerate_into_get by exact Hnd.
  destruct (mem x nodes); reflexivity.
Qed.

(** C5: the Sankey node list holds every category of the [source] and
    [target] columns exactly once; the id of a node is its position in that
    list (so the ids are [0 .. n-1], one per node), ids follow the order of
    first appearance, and every link endpoint gets an id. *)
Theorem sankey_node_ids (fs : list Flow) :
  let seq := ravel_K fs in
  let nodes := unique_nodes fs in
  let m := node_mapping nodes in
  NoDup nodes
  /\ (forall x, In x nodes <-> In x seq)
  /\ (forall x i, dict_get x m = Some i <-> nth_error nodes i = Some x)
  /\ (forall x y i j, dict_get x m = Some i -> dict_get y m = Some j ->
        (i < j <-> index x seq < index y seq)%nat)
  /\ (forall f, In f fs ->
        exists i j, dict_get (source f) m = Some i /\ dict_get (target f) m = Some j).
Proof.
  intros seq nodes m.
  assert (Hnd : NoDup nodes) by apply unique_aux_NoDup.
  assert (Hin : forall x, In x nodes <-> In x seq).
  { intros x. unfold nodes, unique_nodes, unique. rewrite unique_aux_In. simpl. tauto. }
  assert (Hget : forall x, dict_get x m = if mem x nodes then Some (index x nodes) else None)
    by (intros x; apply node_mapping_get, Hnd).
  assert (Hid : forall x i, dict_get x m = Some i <-> In x nodes /\ index x nodes = i).
  { intros x i. rewrite Hget. destruct (mem x nodes) eqn:E.
    - apply mem_In in E. split; [intros H; injection H; tauto|intros [_ <-]; reflexivity].
    - apply mem_false in E. split; [discriminate|tauto]. }
  split; [exact Hnd|]. split; [exact Hin|]. split; [|split].
  - intros x i. rewrite Hid. split.
    + intros [H <-]. apply nth_error_index, H.
    + intros H. split; [eapply nth_error_In; exact H|]. apply index_nth_error; assumption.
  - intros x y i j Hx Hy. apply Hid in Hx as [Hx <-]. apply Hid in Hy as [Hy <-].
    apply unique_aux_order; [apply Hin, Hx|apply Hin, Hy|tauto|tauto].
  - intros f Hf.
    assert (Hs : In (source f) nodes)
      by (apply Hin; unfold seq, ravel_K; apply in_or_app; left; apply in_map, Hf).
    assert (Ht : In (target f) nodes)
      by (apply Hin; unfold seq, ravel_K; apply in_or_app; right; apply in_map, Hf).
    exists (index (source f) nodes), (index (target f) nodes).
    split; apply Hid; tauto.
Qed.

End SankeyFacts.

(* ------------------------------------------------------------------ *)
(** ** Group-by *)

Module GroupFacts.
Import Data Script.

Lemma insert_sorted_In (x y : string) (xs : list string) :
  In x (insert_sorted y xs) <-> x = y \/ In x xs.
Proof.
  induction xs as [|z xs IH]; simpl; [intuition congruence|].
  destruct (String.leb y z); simpl; [intuition congruence|]. rewrite IH. intuition congruence.
Qed.

Lemma sort_In (x : string) (xs : list string) : In x (sort xs) <-> In x xs.
Proof.
  induction xs as [|y xs IH]; simpl; [tauto|].
  rewrite insert_sorted_In, IH. split; intros [H|H]; auto.
Qed.

Lemma group_keys_In (key : Row -> string) (t : table) (k : string) :
  In k (group_keys key t) <-> In k (map key t).
Proof.
  unfold group_keys. rewrite sort_In. unfold unique.
  rewrite SankeyFacts.unique_aux_In. simpl. tauto.
Qed.

Lemma insert_pair_In (x y : string * string) (xs : list (string * string)) :
  In x (insert_pair y xs) <-> x = y \/ In x xs.
Proof.
  induction xs as [|z xs IH]; simpl; [intuition congruence|].
  destruct (pair_leb y z); simpl; [intuition congruence|]. rewrite IH. intuition congruence.
Qed.

Lemma pair_seen (x1 x2 : string) (seen : list (string * string)) :
  existsb (fun '(y1, y2) => String.eqb x1 y1 && String.eqb x2 y2) seen = true
  <-> In (x1, x2) seen.
Proof.
  rewrite existsb_exists. split.
  - intros ([y1 y2] & Hy & E). apply andb_true_iff in E as [E1 E2].
    apply String.eqb_eq in E1, E2. subst. exact Hy.
  - intros H. exists (x1, x2). split; [exact H|]. rewrite !String.eqb_refl. reflexivity.
Qed.

Lemma unique_pairs_In (k : string * string) (xs seen : list (string * string)) :
  In k (unique_pairs seen xs) <-> In k xs /\ ~ In k seen.
Proof.
  revert seen. induction xs as [|[x1 x2] xs IH]; intros seen; simpl; [tauto|].
  destruct (existsb _ seen) eqn:E.
  - apply pair_seen in E. rewrite IH. split; [tauto|].
    intros [[<-|H] Hn]; [contradiction|tauto].
  - rewrite <- not_true_iff_false, pair_seen in E. simpl. rewrite IH. simpl.
    split.
    + intros [<-|[H Hn]]; [tauto|]. split; [tauto|]. tauto.
    + intros [[<-|H] Hn]; [tauto|].
      assert (D : {k = (x1, x2)} + {k <> (x1, x2)}) by (decide equality; apply string_dec).
      destruct D as [->|Hne]; [tauto|].
      right. split; [exact H|]. intros [Heq|Hs]; [congruence|contradiction].
Qed.

(** A pair is a group of [groupby([a, b])] iff some row carries it. *)
Lemma group_keys2_In (a b : Row -> string) (t : table) (k : string * string) :
  In k (group_keys2 a b t) <-> exists r, In r t /\ (a r, b r) = k.
Proof.
  unfold group_keys2.
  assert (Hs : forall xs, In k (fold_right insert_pair [] xs) <-> In k xs).
  { induction xs as [|y xs IH]; simpl; [tauto|]. rewrite insert_pair_In, IH.
    split; intros [H|H]; auto. }
  rewrite Hs, unique_pairs_In, in_map_iff. simpl. split.
  - intros [(r & E & H) _]. eauto.
  - intros (r & H & E). split; [eauto|tauto].
Qed.

Definition mean_error : error := TypeError "agg function failed [how->mean,dtype->object]".

Lemma mean_ok (cs : list Cell) (m : num) : mean cs = Ok m -> has_str cs = false.
Proof. unfold mean. destruct (has_str cs); [discriminate|reflexivity]. Qed.

Lemma mean_no_str (cs : list Cell) : has_str cs = false -> exists m, mean cs = Ok m.
Proof. unfold mean. intros ->. destruct (nums cs); eauto. Qed.

Lemma mean_raise (cs : list Cell) (e : error) : mean cs = Raise e -> e = mean_error.
Proof.
  unfold mean. destruct (has_str cs); [intros H; injection H as <-; reflexivity|].
  destruct (nums cs); discriminate.
Qed.

Lemma mean_groups_raise col a b t ks e :
  mean_groups col a b t ks = Raise e -> e = mean_error.
Proof.
  induction ks as [|k ks IH]; simpl; [discriminate|].
  destruct (mean _) as [m|e'] eqn:Em; [|intros H; injection H as <-; eapply mean_raise; eauto].
  destruct (mean_groups col a b t ks); [discriminate|]. intros H; injection H as <-. auto.
Qed.

Lemma mean_groups_ok col a b t ks l :
  mean_groups col a b t ks = Ok l ->
  map fst l = ks /\ (forall k m, In (k, m) l -> mean (map col (group_rows2 a b k t)) = Ok m).
Proof.
  revert l. induction ks as [|k ks IH]; intros l; simpl.
  - intros H; injection H as <-. split; [reflexivity|intros ? ? []].
  - destruct (mean _) as [m|e] eqn:Em; [|discriminate].
    destruct (mean_groups col a b t ks) as [l'|e]; [|discriminate].
    intros H; injection H as <-. destruct (IH l' eq_refl) as [H1 H2].
    split; [simpl; f_equal; exact H1|].
    intros k' m' [E|H]; [injection E as <- <-; exact Em|eauto].
Qed.

Lemma mean_groups_total col a b t ks :
  (forall k, In k ks -> has_str (map col (group_rows2 a b k t)) = false) ->
  exists l, mean_groups col a b t ks = Ok l.
Proof.
  induction ks as [|k ks IH]; intros H; simpl; [eauto|].
  destruct (mean_no_str _ (H k (or_introl eq_refl))) as [m ->].
  destruct IH as [l ->]; [intros k' Hk; apply H; right; exact Hk|]. eauto.
Qed.

(** A string in the column makes [groupby([a, b])[col].mean()] raise. *)
Lemma groupby_mean2_str (a b : Row -> string) (col : Row -> Cell) (t : table) (r : Row) (s : string) :
  In r t -> col r = CStr s -> groupby_mean2 a b col t = Raise mean_error.
Proof.
  intros Hr Hs. unfold groupby_mean2.
  destruct (mean_groups _ _ _ _ _) as [l|e] eqn:E; [|f_equal; eapply mean_groups_raise; eauto].
  exfalso. apply mean_groups_ok in E as [E1 E2].
  assert (Hk : In (a r, b r) (group_keys2 a b t)) by (apply group_keys2_In; eauto).
  rewrite <- E1 in Hk. apply in_map_iff in Hk as ([k m] & Hk & Hin). simpl in Hk. subst k.
  apply E2, mean_ok in Hin. unfold has_str in Hin.
  rewrite <- not_true_iff_false, existsb_exists in Hin. apply Hin.
  exists (col r). split; [|rewrite Hs; reflexivity].
  apply in_map, filter_In. split; [exact Hr|]. rewrite !String.eqb_refl. reflexivity.
Qed.

(** No string in the column: the mean never raises. *)
Lemma groupby_mean2_no_str (a b : Row -> string) (col : Row -> Cell) (t : table) :
  (forall r, In r t -> forall s, col r <> CStr s) ->
  exists l, groupby_mean2 a b col t = Ok l.
Proof.
  intros H. apply mean_groups_total. intros k _. unfold has_str.
  rewrite <- not_true_iff_false, existsb_exists. intros (c & Hc & Hs).
  apply in_map_iff in Hc as (r & <- & Hr). apply filter_In in Hr as [Hr _].
  destruct (col r) eqn:E; try discriminate. exact (H r Hr s E).
Qed.

End GroupFacts.

(* ------------------------------------------------------------------ *)
(** ** Runs with a missing input file *)

Module ScriptFacts.
Import Data Script Fixtures.

Lemma setup_prefix_no_chart (fs : FS) : no_chart (setup_prefix fs) = true.
Proof. unfold setup_prefix. destruct (charts_dir fs); reflexivity. Qed.

Lemma v2_main_missing (fs : FS) (other_charts : table -> io unit) (evs : list event) (f : string) :
  (csv_file fs = None /\ f = csv_name) \/
  ((exists raws, csv_file fs = Some raws) /\ brand_file fs = None /\ f = brand_name) ->
  V2.main other_charts fs evs
  = (evs ++ setup_prefix fs ++ [Print (V2.missing_message f)], Ok tt).
Proof.
  intros H. destruct fs as [csv brand dir]; unfold setup_prefix; simpl in *.
  destruct H as [[-> ->]|[[raws ->] [-> ->]]];
    destruct dir; cbn; rewrite <- ?app_assoc; reflexivity.
Qed.

(** C4: when [empresasEafit.csv] or [eafitBrand.json] is missing, v2
    prints the error message naming the missing file (the CSV when it is
    missing, else the JSON), writes no chart and returns normally; v3 raises
    [FileNotFoundError] for the missing file (the JSON first, as it opens it
    first) before it writes anything. *)
Theorem missing_input_no_chart (fs : FS) (other_charts later_sections : table -> io unit)
    (evs : list event) :
  csv_file fs = None \/ brand_file fs = None ->
  (exists out,
     V2.main other_charts fs evs = (evs ++ out, Ok tt)
     /\ In (Print (V2.missing_message
                   (match csv_file fs with None => csv_name | Some _ => brand_name end))) out
     /\ no_chart out = true)
  /\ V3.script later_sections fs evs
     = (evs, Raise (FileNotFoundError
                      (match brand_file fs with None => brand_name | Some _ => csv_name end))).
Proof.
  intros H. split.
  - set (f := match csv_file fs with None => csv_name | Some _ => brand_name end).
    exists (setup_prefix fs ++ [Print (V2.missing_message f)]). split; [|split].
    + apply v2_main_missing. unfold f.
      destruct (csv_file fs) as [raws|] eqn:E; [right|left; tauto].
      destruct H as [H|H]; [discriminate|eauto].
    + apply in_or_app. right. left. reflexivity.
    + unfold no_chart. rewrite forallb_app. rewrite setup_prefix_no_chart. reflexivity.
  - destruct fs as [[raws|] [b|] dir]; simpl in H;
      [destruct H; discriminate| reflexivity | reflexivity | reflexivity].
Qed.

Lemma missing_input_no_chart_witness :
  (csv_file (mkFS None (Some (mkBrand [] "Arial"%string)) false) = None
   \/ brand_file (mkFS None (Some (mkBrand [] "Arial"%string)) false) = None)
  /\ ((exists out,
         V2.main (fun _ => ret tt) (mkFS None (Some (mkBrand [] "Arial"%string)) false) [] = ([] ++ out, Ok tt)
         /\ In (Print (V2.missing_message csv_name)) out
         /\ no_chart out = true)
      /\ V3.script (fun _ => ret tt) (mkFS None (Some (mkBrand [] "Arial"%string)) false) []
         = ([], Raise (FileNotFoundError csv_name))).
Proof.
  split; [left; reflexivity|].
  exact (missing_input_no_chart (mkFS None (Some (mkBrand [] "Arial"%string)) false)
           (fun _ => ret tt) (fun _ => ret tt) [] (or_introl eq_refl)).
Defined.

End ScriptFacts.

(* ------------------------------------------------------------------ *)
(** ** The loaders *)

Module LoadFacts.
Import Data Script Fixtures.



Lemma column_kind_text (cs : list string) (s : string) :
  In s cs -> text_cell s = true -> column_kind cs = KText.
Proof.
  intros Hs Ht. unfold text_cell in Ht.
  apply andb_true_iff in Ht as [Ht Hb]. apply andb_true_iff in Ht as [Hn Hf].
  apply negb_true_iff in Hn, Hf, Hb.
  unfold column_kind.
  replace (forallb (fun s => is_na s || float_text s) cs) with false.
  - replace (forallb (fun s => is_na s || bool_text s) cs) with false; [reflexivity|].
    symmetry. apply not_true_iff_false. rewrite forallb_forall. intros H.
    specialize (H s Hs). rewrite Hn, Hb in H. discriminate.
  - symmetry. apply not_true_iff_false. rewrite forallb_forall. intros H.
    specialize (H s Hs). rewrite Hn, Hf in H. discriminate.
Qed.


Lemma sentinel_not_na (s : string) : In s V3.sentinels -> is_na s = false.
Proof.
  intros H. repeat destruct H as [<-|H]; try reflexivity. contradiction.
Qed.

Lemma isin_sector (raws : list RawRow) (r : RawRow) :
  V3.isin (V3.sector_cell raws r) V3.sentinels
  = match column_kind (map raw_macrosector raws) with
    | KText => mem (raw_macrosector r) V3.sentinels
    | _ => false
    end.
Proof.
  unfold V3.sector_cell, read_cell.
  destruct (is_na (raw_macrosector r)) eqn:Ena.
  - destruct (column_kind (map raw_macrosector raws)); try reflexivity.
    symmetry. apply SankeyFacts.mem_false. intros H.
    rewrite (sentinel_not_na _ H) in Ena. discriminate.
  - destruct (column_kind (map raw_macrosector raws));
      [destruct (parse_num (raw_macrosector r))|..]; reflexivity.
Qed.




End LoadFacts.

(* ------------------------------------------------------------------ *)
(** ** Non-numeric cells *)

Module CoerceFacts.
Import Data Script Fixtures.

Lemma coerce_fill_num (c : Cell) : exists q, coerce_fill c = CNum q.
Proof.
  unfold coerce_fill. destruct c as [q|s|]; simpl; [eauto| |eauto].
  destruct (parse_num s); simpl; eauto.
Qed.

Lemma coerce_fill_bad (s : string) : parse_num s = None -> coerce_fill (CStr s) = CNum 0.
Proof. intros H. unfold coerce_fill. simpl. rewrite H. reflexivity. Qed.

Lemma sum_app (cs1 cs2 : list Cell) : (sum (cs1 ++ cs2) == sum cs1 + sum cs2)%Q.
Proof.
  induction cs1 as [|c cs1 IH]; simpl.
  - unfold sum. simpl. ring.
  - destruct c; unfold sum in *; simpl; try rewrite IH; try ring.
Qed.

Lemma section_4_numeric (r : Row) :
  exists q1 q2, valoracion_ponderada (V3.section_4_coerce r) = CNum q1
                /\ ingresos_operacionales (V3.section_4_coerce r) = CNum q2.
Proof.
  destruct (coerce_fill_num (valoracion_ponderada r)) as [q1 H1].
  destruct (coerce_fill_num (ingresos_operacionales r)) as [q2 H2].
  exists q1, q2. destruct r; simpl in *. auto.
Qed.

Lemma v2_main_str (raws : list RawRow) (b : Brand) (dir : bool)
    (other_charts : table -> io unit) (evs : list event) (r : Row) (s : string) :
  In r (read_csv raws) -> valoracion_ponderada r = CStr s ->
  V2.main other_charts (mkFS (Some raws) (Some b) dir) evs
  = (evs ++ setup_prefix (mkFS (Some raws) (Some b) dir)
         ++ [Print "Entorno configurado exitosamente."%string;
             Print (V2.nl ++ "--- Iniciando generación de gráficos ---")%string],
     Raise GroupFacts.mean_error).
Proof.
  intros Hr Hs.
  assert (E : groupby_mean2 macrosector nombre_pilar valoracion_ponderada (read_csv raws)
              = Raise GroupFacts.mean_error) by (eapply GroupFacts.groupby_mean2_str; eauto).
  unfold setup_prefix. destruct dir; cbn;
    unfold V2.generate_chart_01_radar_macroeconomic, io_bind, lift; rewrite E;
    rewrite <- ?app_assoc; reflexivity.
Qed.

Lemma score_column_text (raws : list RawRow) (r : RawRow) :
  In r raws -> text_cell (raw_valoracion_ponderada r) = true ->
  valoracion_ponderada (read_row (kinds raws) r) = CStr (raw_valoracion_ponderada r).
Proof.
  intros Hr Ht.
  cbn [valoracion_ponderada read_row k_valoracion_ponderada kinds].
  rewrite (LoadFacts.column_kind_text _ _ (in_map raw_valoracion_ponderada _ _ Hr) Ht).
  unfold read_cell. unfold text_cell in Ht.
  destruct (is_na (raw_valoracion_ponderada r)); [discriminate|reflexivity].
Qed.

Lemma v3_script_str (later_sections : table -> io unit) (raws : list RawRow) (b : Brand)
    (dir : bool) (evs : list event) (r : Row) (s : string) :
  In r (V3.load raws) -> valoracion_ponderada r = CStr s ->
  V3.script later_sections (mkFS (Some raws) (Some b) dir) evs = (evs, Raise GroupFacts.mean_error).
Proof.
  intros Hr Hs.
  assert (E : groupby_mean2 macrosector nombre_pilar valoracion_ponderada (V3.load raws)
              = Raise GroupFacts.mean_error) by (eapply GroupFacts.groupby_mean2_str; eauto).
  unfold V3.script. cbn [brand_file csv_file io_bind ret].
  unfold lift, V3.radar_final_df. rewrite E. reflexivity.
Qed.

(** C2: [to_numeric(errors='coerce').fillna(0)] turns every cell into a
    number, a non-numeric string that is no spelling of infinity into 0,
    so that string adds nothing to a sum. v3 applies it in place to the
    score and the income at section 4 (lines 222-223): from there on a
    group-by mean of the score never raises. Before that, the score column
    is as [read_csv] reads it: an empty or missing-value spelling is NaN,
    and any other text that is no number makes the column text. Then v2's
    chart 01 and v3's section 1 both raise [TypeError] at their first
    mean, before any chart is written (in v3, when the line is not dropped
    by the sector filter). *)
Theorem bad_score_coerced :
  (forall c, (forall s, c = CStr s -> inf_literal s = false) -> exists q, coerce_fill c = CNum q)
  /\ (forall s, parse_num s = None -> inf_literal s = false -> coerce_fill (CStr s) = CNum 0)
  /\ (forall cs1 s cs2, parse_num s = None -> inf_literal s = false ->
        (sum (map coerce_fill (cs1 ++ CStr s :: cs2)) == sum (map coerce_fill (cs1 ++ cs2)))%Q)
  /\ (forall raws r, In r raws -> is_na (raw_valoracion_ponderada r) = true ->
        valoracion_ponderada (read_row (kinds raws) r) = CNaN)
  /\ (forall t a b, exists l,
        groupby_mean2 a b valoracion_ponderada (map V3.section_4_coerce t) = Ok l)
  /\ (forall raws b dir other_charts later_sections evs r,
        In r raws -> text_cell (raw_valoracion_ponderada r) = true ->
        (exists out, V2.main other_charts (mkFS (Some raws) (Some b) dir) evs
                     = (evs ++ out, Raise GroupFacts.mean_error)
                     /\ no_chart out = true)
        /\ (~ In (raw_macrosector r) V3.sentinels ->
            V3.script later_sections (mkFS (Some raws) (Some b) dir) evs
            = (evs, Raise GroupFacts.mean_error))).
Proof.
  split; [intros c _; apply coerce_fill_num|].
  split; [intros s H _; apply coerce_fill_bad, H|]. split; [|split; [|split]].
  - intros cs1 s cs2 H _. rewrite !map_app, !sum_app. simpl map.
    rewrite coerce_fill_bad by exact H. unfold sum at 2. simpl. fold (sum (map coerce_fill cs2)).
    ring.
  - intros raws r _ H. cbn [valoracion_ponderada read_row]. unfold read_cell. rewrite H. reflexivity.
  - intros t a b. apply GroupFacts.groupby_mean2_no_str.
    intros r Hr s. apply in_map_iff in Hr as (r0 & <- & _).
    destruct (section_4_numeric r0) as (q1 & q2 & -> & _). discriminate.
  - intros raws b dir other_charts later_sections evs r Hr Ht.
    pose proof (score_column_text raws r Hr Ht) as Hs. split.
    + assert (Hr' : In (read_row (kinds raws) r) (read_csv raws)) by (apply in_map, Hr).
      eexists. split; [apply (v2_main_str raws b dir other_charts evs _ _ Hr' Hs)|].
      unfold no_chart. rewrite forallb_app, ScriptFacts.setup_prefix_no_chart.
      reflexivity.
    + intros Hn. apply (v3_script_str later_sections raws b dir evs (read_row (kinds raws) r) (raw_valoracion_ponderada r)); [|exact Hs].
      unfold V3.load. apply in_map. unfold V3.kept_rows. apply filter_In. split; [exact Hr|].
      rewrite LoadFacts.isin_sector. destruct (column_kind (map raw_macrosector raws)); try reflexivity.
      apply negb_true_iff, SankeyFacts.mem_false, Hn.
Qed.

Lemma bad_score_coerced_witness :
  (exists out, V2.main (fun _ => ret tt) (mkFS (Some [raw_text_score]) (Some brand0) true) []
               = ([] ++ out, Raise GroupFacts.mean_error) /\ no_chart out = true)
  /\ V3.script (fun _ => ret tt) (mkFS (Some [raw_text_score]) (Some brand0) true) []
     = ([], Raise GroupFacts.mean_error).
Proof.
  pose proof (proj2 (proj2 (proj2 (proj2 (proj2 bad_score_coerced))))
                [raw_text_score] brand0 true (fun _ => ret tt) (fun _ => ret tt) [] raw_text_score
                (or_introl eq_refl) eq_refl) as [H1 H2].
  split; [exact H1|]. apply H2. vm_compute. intros H.
  repeat destruct H as [H|H]; try discriminate H. exact H.
Defined.

(** A CSV whose score is ["abc"]: v2 raises at the mean of chart 01, v3 at
    the mean of section 1, before any chart is written. *)
Lemma text_score_raises :
  V2.main (fun _ => ret tt) (mkFS (Some [raw_text_score]) (Some brand0) true) []
  = ([Print "Entorno configurado exitosamente."%string;
      Print (V2.nl ++ "--- Iniciando generación de gráficos ---")%string],
     Raise (TypeError "agg function failed [how->mean,dtype->object]"))
  /\ V3.script (fun _ => ret tt) (mkFS (Some [raw_text_score]) (Some brand0) true) []
     = ([], Raise (TypeError "agg function failed [how->mean,dtype->object]")).
Proof. split; vm_compute; reflexivity. Qed.

End CoerceFacts.

(* ------------------------------------------------------------------ *)
(** ** The per-company aggregation and the income scatter *)

Module CompanyFacts.
Import Data Script Fixtures.

Section Rewrite.
(** A column rewrite that keeps the company and coerces the income. *)
Variable f : Row -> Row.
Hypothesis f_company : forall r, razon_social (f r) = razon_social r.
Hypothesis f_income : forall r, ingresos_operacionales (f r) = coerce_fill (ingresos_operacionales r).



End Rewrite.








End CompanyFacts.

(* ------------------------------------------------------------------ *)
(** ** The diverging bar of section 10 *)

Module DivergingFacts.
Import Data V3 Fixtures.

Lemma insert_sorted_perm (x : string) (xs : list string) :
  Permutation (insert_sorted x xs) (x :: xs).
Proof.
  induction xs as [|y xs IH]; simpl; [reflexivity|].
  destruct (String.leb x y); [reflexivity|].
  rewrite IH. apply perm_swap.
Qed.

Lemma sort_perm (xs : list string) : Permutation (sort xs) xs.
Proof.
  induction xs as [|x xs IH]; simpl; [reflexivity|].
  rewrite insert_sorted_perm, IH. reflexivity.
Qed.

Lemma insert_row_perm (x : DivergingRow) (ys : list DivergingRow) :
  Permutation (insert_row x ys) (x :: ys).
Proof.
  induction ys as [|y ys IH]; simpl; [reflexivity|].
  destruct (row_leb x y); [reflexivity|].
  rewrite IH. apply perm_swap.
Qed.

Lemma sort_rows_perm (xs : list DivergingRow) : Permutation (sort_rows xs) xs.
Proof.
  induction xs as [|x xs IH]; simpl; [reflexivity|].
  rewrite insert_row_perm, IH. reflexivity.
Qed.

Lemma filter_sector (cs : list Company) (ms : list string) (m : string) :
  NoDup ms -> In m ms ->
  filter (fun a => String.eqb (fst a) m) (map (fun m' => (m', sector_mean cs m')) ms)
  = [(m, sector_mean cs m)].
Proof.
  induction ms as [|m' ms IH]; intros Hnd Hin; [destruct Hin|].
  inversion Hnd as [|? ? Hn Hnd']; subst. simpl.
  destruct (String.eqb_spec m' m) as [->|Hne].
  - f_equal. clear IH Hin Hnd Hnd'. induction ms as [|y ms IH']; simpl; [reflexivity|].
    destruct (String.eqb_spec y m) as [->|]; [destruct Hn; left; reflexivity|].
    apply IH'. intros H; apply Hn; right; exact H.
  - apply IH; [exact Hnd'|]. destruct Hin as [->|H]; [contradiction|exact H].
Qed.

Lemma sector_avg_score_eq (cs : list Company) :
  sector_avg_score cs
  = map (fun m => (m, sector_mean cs m)) (sort (unique (map company_sector cs))).
Proof. reflexivity. Qed.

Lemma concat_map_single {A B} (h : A -> list B) (g : A -> B) (l : list A) :
  (forall x, In x l -> h x = [g x]) -> List.concat (map h l) = map g l.
Proof.
  induction l as [|x l IH]; intros H; simpl; [reflexivity|].
  rewrite H by (left; reflexivity). simpl. f_equal. apply IH. intros y Hy. apply H. right. exact Hy.
Qed.

Lemma merge_one_row (cs : list Company) :
  merge cs (sector_avg_score cs)
  = map (fun c => diverging_row c (sector_mean cs (company_sector c))) cs.
Proof.
  unfold merge. rewrite sector_avg_score_eq, flat_map_concat_map.
  assert (Hnd : NoDup (sort (unique (map company_sector cs)))).
  { eapply Permutation_NoDup; [symmetry; apply sort_perm|apply SankeyFacts.unique_aux_NoDup]. }
  assert (Hin : forall c, In c cs -> In (company_sector c) (sort (unique (map company_sector cs)))).
  { intros c Hc. apply GroupFacts.sort_In. unfold unique. apply SankeyFacts.unique_aux_In.
    split; [apply in_map, Hc|intros []]. }
  apply concat_map_single. intros c Hc. rewrite filter_sector by auto. reflexivity.
Qed.

Lemma diverging_In (cs : list Company) (d : DivergingRow) :
  In d (diverging_data cs)
  <-> exists c, In c cs /\ d = diverging_row c (sector_mean cs (company_sector c)).
Proof.
  unfold diverging_data. split.
  - intros H. apply (Permutation_in _ (sort_rows_perm _)) in H.
    rewrite merge_one_row in H. apply in_map_iff in H as (c & E & Hc).
    exists c. split; [exact Hc|symmetry; exact E].
  - intros (c & Hc & ->). apply (Permutation_in _ (Permutation_sym (sort_rows_perm _))).
    rewrite merge_one_row. apply in_map_iff. exists c. split; [reflexivity|exact Hc].
Qed.

(** C9: every row of [diverging_data] is a company of the aggregated
    table (in the script, [company_agg_data]: the companies with positive
    income) with [Diferencia_vs_Promedio] equal to its total score minus
    the mean total score of the companies of that table in its sector, and
    with the label ['Superior al Promedio'] when that difference is [>= 0],
    ['Inferior al Promedio'] when it is [< 0]; the two labels differ, and
    each company has exactly one row. *)
Theorem diverging_difference (cs : list Company) :
  (forall d, In d (diverging_data cs) ->
     exists c, In c cs /\ d_company d = company c /\ d_total d = total c
       /\ d_sector d = company_sector c
       /\ promedio_sector d = sector_mean cs (company_sector c)
       /\ diferencia_vs_promedio d = (total c - sector_mean cs (company_sector c))%Q
       /\ ((desempeno_relativo d = superior /\ (0 <= diferencia_vs_promedio d)%Q)
           \/ (desempeno_relativo d = inferior /\ (diferencia_vs_promedio d < 0)%Q)))
  /\ (forall c, In c cs -> exists d, In d (diverging_data cs) /\ d_company d = company c)
  /\ List.length (diverging_data cs) = List.length cs
  /\ superior <> inferior.
Proof.
  split; [|split; [|split]].
  - intros d Hd. apply diverging_In in Hd as (c & Hc & ->).
    exists c. unfold diverging_row; simpl. do 6 (split; [first [exact Hc | reflexivity]|]).
    destruct (Qle_bool 0 (total c - sector_mean cs (company_sector c))) eqn:E.
    + left. split; [reflexivity|]. apply Qle_bool_iff, E.
    + right. split; [reflexivity|]. apply Qnot_le_lt. intros H.
      apply Qle_bool_iff in H. simpl in H. congruence.
  - intros c Hc. exists (diverging_row c (sector_mean cs (company_sector c))).
    split; [apply diverging_In; eauto|reflexivity].
  - unfold diverging_data. rewrite (Permutation_length (sort_rows_perm _)), merge_one_row.
    apply length_map.
  - discriminate.
Qed.

End DivergingFacts.

(* ------------------------------------------------------------------ *)
(** ** Writes to the shared table *)

Module StoreFacts.
Import Data Store Fixtures.
Local Open Scope nat_scope.

Lemma copy_only_mono (os : list Op) : copy_only false os = true -> copy_only true os = true.
Proof.
  induction os as [|o os IH]; simpl; [reflexivity|].
  destruct o as [|[|] col f|[|] col]; simpl; try discriminate; auto.
Qed.

Lemma copy_only_app (c : bool) (a b : list Op) :
  copy_only c a = true -> copy_only false b = true -> copy_only c (a ++ b) = true.
Proof.
  revert c. induction a as [|o a IH]; intros c Ha Hb; simpl in *.
  - destruct c; [apply copy_only_mono|]; exact Hb.
  - destruct o as [|[|] col f|[|] col]; try discriminate; auto.
    + apply andb_true_iff in Ha as [-> Ha]. simpl. auto.
    + apply andb_true_iff in Ha as [-> Ha]. simpl. auto.
Qed.

Lemma copy_only_concat (l : list (list Op)) :
  Forall (fun b => copy_only false b = true) l -> copy_only false (List.concat l) = true.
Proof.
  induction 1 as [|b l Hb _ IH]; simpl; [reflexivity|]. apply copy_only_app; assumption.
Qed.

Lemma update_nth_length {A} (n : nat) (f : A -> A) (xs : list A) :
  List.length (update_nth n f xs) = List.length xs.
Proof.
  revert n. induction xs as [|x xs IH]; intros [|n]; simpl; auto.
Qed.

Lemma exec_copy_only (os : list Op) :
  forall c t rest, copy_only c os = true -> (c = true -> rest <> []) ->
  exists rest', exec (t :: rest) os = t :: rest'.
Proof.
  induction os as [|o os IH]; intros c t rest Hs Hc; [exists rest; reflexivity|].
  change (exec (t :: rest) (o :: os)) with (exec (exec_op (t :: rest) o) os).
  cbn [copy_only] in Hs.
  destruct o as [|[|] col f|[|] col]; try discriminate; cbn [exec_op nth app].
  - destruct (IH true t (rest ++ [t]) Hs) as (rest' & E).
    + intros _. destruct rest; discriminate.
    + exists rest'. exact E.
  - apply andb_true_iff in Hs as [-> Hs].
    destruct rest as [|r rest]; [destruct (Hc eq_refl); reflexivity|].
    unfold ref_index. cbn [List.length].
    replace (S (S (List.length rest)) - 1) with (S (List.length rest)) by lia.
    cbn [update_nth].
    match goal with |- exists _, exec (t :: ?R) os = _ =>
      destruct (IH true t R Hs) as (rest' & E) end.
    + intros _ H. apply (f_equal (@List.length _)) in H.
      rewrite update_nth_length in H. discriminate.
    + exists rest'. exact E.
  - apply andb_true_iff in Hs as [-> Hs].
    destruct rest as [|r rest]; [destruct (Hc eq_refl); reflexivity|].
    unfold ref_index. cbn [List.length].
    replace (S (S (List.length rest)) - 1) with (S (List.length rest)) by lia.
    cbn [update_nth].
    match goal with |- exists _, exec (t :: ?R) os = _ =>
      destruct (IH true t R Hs) as (rest' & E) end.
    + intros _ H. apply (f_equal (@List.length _)) in H.
      rewrite update_nth_length in H. discriminate.
    + exists rest'. exact E.
Qed.

Lemma Forall_firstn {A} (P : A -> Prop) (k : nat) (l : list A) :
  Forall P l -> Forall P (firstn k l).
Proof.
  intros H. revert k. induction H as [|x l Hx _ IH]; intros [|k]; simpl; auto.
Qed.

Lemma v2_copy_only : Forall (fun b => copy_only false b = true) v2_chart_ops.
Proof. repeat constructor. Qed.

Lemma v2_shared_unchanged (k : nat) (t : table) : shared_after v2_chart_ops k t = t.
Proof.
  unfold shared_after.
  destruct (exec_copy_only (List.concat (firstn k v2_chart_ops)) false t [])
    as (rest' & ->).
  - apply copy_only_concat, Forall_firstn, v2_copy_only.
  - discriminate.
  - reflexivity.
Qed.

Lemma concat_firstn_nil {A} (k : nat) (l : list (list A)) :
  Forall (fun b => b = []) l -> List.concat (firstn k l) = [].
Proof.
  intros H. revert k. induction H as [|b l Hb _ IH]; intros [|k]; simpl; auto.
  rewrite Hb, IH. reflexivity.
Qed.

Lemma v3_ops_upto (k : nat) :
  List.concat (firstn k v3_section_ops)
  = if Nat.leb k 3 then []
    else if Nat.eqb k 4 then [OSetCol Shared ColScore coerce_fill; OSetCol Shared ColIncome coerce_fill]
    else [OSetCol Shared ColScore coerce_fill; OSetCol Shared ColIncome coerce_fill;
          OSetCol Shared ColYear to_numeric].
Proof.
  destruct k as [|[|[|[|[|k]]]]]; try reflexivity.
  change (firstn (S (S (S (S (S k))))) v3_section_ops)
    with ([] :: [] :: [] ::
          [OSetCol Shared ColScore coerce_fill; OSetCol Shared ColIncome coerce_fill] ::
          [OSetCol Shared ColYear to_numeric]
          :: firstn k [[]; []; []; []; []; []; []; []; []; []; []; []]).
  cbn [List.concat app]. rewrite concat_firstn_nil by (repeat constructor). reflexivity.
Qed.

(** C1: v2 never writes to the table its charts share ([df]): charts 05,
    11 and 13 write only to the copy they take first, so after any number
    of charts the shared table is the loaded one. v3 rewrites its shared
    [raw_data] in place: sections 1 to 3 read the loaded table, section 4
    reads it with the score and the income coerced and zero-filled (lines
    222-223), and every later section also with the foundation year
    coerced (line 260). *)
Theorem shared_table_writes (t : table) (k : nat) :
  shared_after v2_chart_ops k t = t
  /\ shared_after v3_section_ops k t
     = (if Nat.leb k 3 then t
        else if Nat.eqb k 4 then map V3.section_4_coerce t
        else map (fun r => V3.section_5_coerce (V3.section_4_coerce r)) t).
Proof.
  split; [apply v2_shared_unchanged|].
  unfold shared_after. rewrite v3_ops_upto.
  destruct (Nat.leb k 3); [reflexivity|].
  destruct (Nat.eqb k 4); cbn; rewrite ?map_map; reflexivity.
Qed.

(** v3 on a company with one score given and one empty: section 1 writes
    its chart and hands the loaded table on; from it section 3 reads a NaN
    score, section 5 reads 0 for it. *)
Lemma v3_sections_read_other_scores :
  (forall later_sections : table -> Script.io unit,
     V3.script later_sections (Script.mkFS (Some raws_partial_score) (Some brand0) true) []
     = later_sections (V3.load raws_partial_score)
         [Script.WriteFile "charts/01_radar_macroeconomic.html";
          Script.WriteFile "img/01_radar_macroeconomic.png"])
  /\ map valoracion_ponderada (shared_after v3_section_ops 3 (V3.load raws_partial_score))
     = [CNum 2; CNaN]
  /\ map valoracion_ponderada (shared_after v3_section_ops 5 (V3.load raws_partial_score))
     = [CNum 2; CNum 0].
Proof. split; [intros later_sections|split]; vm_compute; reflexivity. Qed.

End StoreFacts.

(* ------------------------------------------------------------------ *)
(** ** The pivoted matrices *)

Module RadarFacts.
Import Data Script V3 Fixtures.
Local Open Scope string_scope.

(** C7: on a CSV where every score of the sector ["Servicios"] is empty,
    the v3 radar matrix of section 1 has no ["Servicios"] column, although
    the pair (["Servicios"], ["Pilar 1"]) occurs in the table:
    [pivot_table] drops the NaN mean before [fillna(0)] runs. The matrix
    of section 13, built after the coercion of line 222 from the same
    rows, has the column, with 0. *)
Theorem radar_drops_all_nan_sector :
  In ("Servicios", "Pilar 1")
     (map (fun r => (macrosector r, nombre_pilar r)) (load raws_empty_sector))
  /\ radar_final_df (load raws_empty_sector)
     = Ok (mkMatrix ["Pilar 1"] ["Industria"] [[2%Q]])
  /\ var_importance_matrix (map section_4_coerce (load raws_empty_sector))
     = Ok (mkMatrix ["Variable 1"] ["Industria"; "Servicios"] [[2%Q; 0%Q]]).
Proof. split; [|split]; vm_compute; [right; left; reflexivity|reflexivity|reflexivity]. Qed.

End RadarFacts.

(* ------------------------------------------------------------------ *)
(** ** Insertion sort *)

Module SortFacts.
Import V2Charts.

Section Sort.
Context {A : Type}.
Variable leb : A -> A -> bool.
Hypothesis leb_total : forall x y, leb x y = false -> leb y x = true.
Hypothesis leb_trans : forall x y z, leb x y = true -> leb y z = true -> leb x z = true.

Lemma insert_by_perm (x : A) (ys : list A) : Permutation (insert_by leb x ys) (x :: ys).
Proof.
  induction ys as [|y ys IH]; simpl; [reflexivity|].
  destruct (leb x y); [reflexivity|]. rewrite IH. apply perm_swap.
Qed.

Lemma sort_by_perm (xs : list A) : Permutation (sort_by leb xs) xs.
Proof.
  induction xs as [|x xs IH]; simpl; [reflexivity|].
  unfold sort_by in *. simpl. rewrite insert_by_perm, IH. reflexivity.
Qed.

Lemma insert_by_sorted (x : A) (ys : list A) :
  Sorted (fun a b => leb a b = true) ys -> Sorted (fun a b => leb a b = true) (insert_by leb x ys).
Proof.
  induction ys as [|y ys IH]; intros H; simpl; [repeat constructor|].
  destruct (leb x y) eqn:E; [constructor; [exact H|constructor; exact E]|].
  apply Sorted_inv in H as [Hs Hh]. constructor; [apply IH, Hs|].
  destruct ys as [|z ys]; simpl; [constructor; apply leb_total, E|].
  destruct (leb x z); constructor; [apply leb_total, E|].
  inversion Hh; assumption.
Qed.

Lemma sort_by_sorted (xs : list A) : StronglySorted (fun a b => leb a b = true) (sort_by leb xs).
Proof.
  apply Sorted_StronglySorted; [intros a b c; apply leb_trans|].
  induction xs as [|x xs IH]; [constructor|]. apply insert_by_sorted, IH.
Qed.

(** The first [n] of a sorted list and the rest. *)
Lemma sort_by_firstn (n : nat) (xs : list A) :
  Permutation xs (firstn n (sort_by leb xs) ++ skipn n (sort_by leb xs))
  /\ StronglySorted (fun a b => leb a b = true) (firstn n (sort_by leb xs))
  /\ (forall x y, In x (firstn n (sort_by leb xs)) -> In y (skipn n (sort_by leb xs)) ->
        leb x y = true).
Proof.
  pose proof (sort_by_sorted xs) as Hs.
  rewrite <- (firstn_skipn n (sort_by leb xs)) in Hs.
  split; [rewrite firstn_skipn; symmetry; apply sort_by_perm|].
  revert Hs. generalize (firstn n (sort_by leb xs)) (skipn n (sort_by leb xs)).
  intros l1 l2 Hs. induction l1 as [|a l1 IH]; simpl in *.
  - split; [constructor|intros ? ? []].
  - apply StronglySorted_inv in Hs as [Hs Hf]. destruct (IH Hs) as [H1 H2].
    split.
    + constructor; [exact H1|]. eapply incl_Forall; [|exact Hf].
      intros z Hz. apply in_or_app. left. exact Hz.
    + intros x y [<-|Hx] Hy; [|auto].
      rewrite Forall_forall in Hf. apply Hf, in_or_app. right. exact Hy.
Qed.
End Sort.

End SortFacts.

(* ------------------------------------------------------------------ *)
(** ** The rankings of v2 *)

Module RankingFacts.
Import Data V2Charts.

Lemma Qle_bool_total (a b : Q) : Qle_bool a b = false -> Qle_bool b a = true.
Proof.
  intros H. apply Qle_bool_iff. apply Qlt_le_weak. apply Qnot_le_lt.
  intros H'. apply Qle_bool_iff in H'. congruence.
Qed.

Lemma Qle_bool_trans (a b c : Q) : Qle_bool a b = true -> Qle_bool b c = true -> Qle_bool a c = true.
Proof. rewrite !Qle_bool_iff. apply Qle_trans. Qed.

Lemma group_keys_NoDup (key : Row -> string) (t : table) : NoDup (group_keys key t).
Proof.
  unfold group_keys. eapply Permutation_NoDup.
  - symmetry. apply DivergingFacts.sort_perm.
  - apply SankeyFacts.unique_aux_NoDup.
Qed.

(** Each company of the table gets exactly one total. *)
Lemma groupby_sum_keys (df : table) :
  NoDup (map fst (groupby_sum razon_social valoracion_ponderada df))
  /\ forall c, In c (map fst (groupby_sum razon_social valoracion_ponderada df))
               <-> In c (map razon_social df).
Proof.
  unfold groupby_sum. rewrite map_map. simpl. rewrite map_id.
  split; [apply group_keys_NoDup|intros c; apply GroupFacts.group_keys_In].
Qed.

Lemma StronglySorted_weaken {A} (R R' : A -> A -> Prop) (l : list A) :
  (forall x y, R x y -> R' x y) -> StronglySorted R l -> StronglySorted R' l.
Proof.
  intros HR H. induction H; constructor; [assumption|].
  eapply Forall_impl; [|eassumption]. auto.
Qed.

(** X1: chart 09 ranks each company of the table once by its total; it
    lists min(10, n) of the n company totals, highest first, and every total it leaves out is no higher than any total it lists. *)
Theorem chart_09_top10_spec (df : table) :
  let all := groupby_sum razon_social valoracion_ponderada df in
  let top := chart_09_top10 df in
  (NoDup (map fst all) /\ forall c, In c (map fst all) <-> In c (map razon_social df))
  /\ List.length top = Nat.min 10 (List.length all)
  /\ StronglySorted (fun x y => snd y <= snd x) top
  /\ exists rest, Permutation all (top ++ rest)
       /\ forall x y, In x top -> In y rest -> snd y <= snd x.
Proof.
  intros all top. unfold top, chart_09_top10. fold all.
  set (leb := fun x y : string * Q => Qle_bool (snd y) (snd x)).
  assert (Ht : forall x y, leb x y = false -> leb y x = true)
    by (intros x y; apply Qle_bool_total).
  assert (Hr : forall x y z, leb x y = true -> leb y z = true -> leb x z = true)
    by (intros x y z H1 H2; exact (Qle_bool_trans _ _ _ H2 H1)).
  split; [apply groupby_sum_keys|].
  destruct (SortFacts.sort_by_firstn leb Ht Hr 10 all) as (Hp & Hs & Hle).
  split; [rewrite length_firstn, (Permutation_length (SortFacts.sort_by_perm leb all)); reflexivity|].
  split.
  - eapply StronglySorted_weaken; [|exact Hs]. intros x y H. apply Qle_bool_iff, H.
  - exists (skipn 10 (sort_by leb all)). split; [exact Hp|].
    intros x y Hx Hy. apply Qle_bool_iff, (Hle x y Hx Hy).
Qed.

(** X2: chart 10 ranks each company of the table once by its total; it
    lists min(10, n) of the n company totals, lowest first, and every total it leaves out is no lower than any total it lists. *)
Theorem chart_10_bottom10_spec (df : table) :
  let all := groupby_sum razon_social valoracion_ponderada df in
  let bottom := chart_10_bottom10 df in
  (NoDup (map fst all) /\ forall c, In c (map fst all) <-> In c (map razon_social df))
  /\ List.length bottom = Nat.min 10 (List.length all)
  /\ StronglySorted (fun x y => snd x <= snd y) bottom
  /\ exists rest, Permutation all (bottom ++ rest)
       /\ forall x y, In x bottom -> In y rest -> snd x <= snd y.
Proof.
  intros all bottom. unfold bottom, chart_10_bottom10. fold all.
  set (leb := fun x y : string * Q => Qle_bool (snd x) (snd y)).
  assert (Ht : forall x y, leb x y = false -> leb y x = true)
    by (intros x y; apply Qle_bool_total).
  assert (Hr : forall x y z, leb x y = true -> leb y z = true -> leb x z = true)
    by (intros x y z; apply Qle_bool_trans).
  split; [apply groupby_sum_keys|].
  destruct (SortFacts.sort_by_firstn leb Ht Hr 10 all) as (Hp & Hs & Hle).
  split; [rewrite length_firstn, (Permutation_length (SortFacts.sort_by_perm leb all)); reflexivity|].
  split.
  - eapply StronglySorted_weaken; [|exact Hs]. intros x y H. apply Qle_bool_iff, H.
  - exists (skipn 10 (sort_by leb all)). split; [exact Hp|].
    intros x y Hx Hy. apply Qle_bool_iff, (Hle x y Hx Hy).
Qed.

Lemma mean_groups1_raise col key t ks e :
  mean_groups1 col key t ks = Raise e -> e = GroupFacts.mean_error.
Proof.
  induction ks as [|k ks IH]; simpl; [discriminate|].
  destruct (mean _) as [m|e'] eqn:Em;
    [|intros H; injection H as <-; eapply GroupFacts.mean_raise; eauto].
  destruct (mean_groups1 col key t ks); [discriminate|]. intros H; injection H as <-. auto.
Qed.

Lemma mean_groups1_ok col key t ks l :
  mean_groups1 col key t ks = Ok l ->
  map fst l = ks /\ (forall k m, In (k, m) l -> mean (map col (group_rows key k t)) = Ok m).
Proof.
  revert l. induction ks as [|k ks IH]; intros l; simpl.
  - intros H; injection H as <-. split; [reflexivity|intros ? ? []].
  - destruct (mean _) as [m|e] eqn:Em; [|discriminate].
    destruct (mean_groups1 col key t ks) as [l'|e]; [|discriminate].
    intros H; injection H as <-. destruct (IH l' eq_refl) as [H1 H2].
    split; [simpl; f_equal; exact H1|].
    intros k' m' [E|H]; [injection E as <- <-; exact Em|eauto].
Qed.

Lemma mean_groups1_total col key t ks :
  (forall k, In k ks -> has_str (map col (group_rows key k t)) = false) ->
  exists l, mean_groups1 col key t ks = Ok l.
Proof.
  induction ks as [|k ks IH]; intros H; simpl; [eauto|].
  destruct (GroupFacts.mean_no_str _ (H k (or_introl eq_refl))) as [m ->].
  destruct IH as [l ->]; [intros k' Hk; apply H; right; exact Hk|]. eauto.
Qed.

(** A string in the column makes [groupby(key)[col].mean()] raise. *)
Lemma groupby_mean_str (key : Row -> string) (col : Row -> Cell) (t : table) (r : Row) (s : string) :
  In r t -> col r = CStr s -> groupby_mean key col t = Raise GroupFacts.mean_error.
Proof.
  intros Hr Hs. unfold groupby_mean.
  destruct (mean_groups1 _ _ _ _) as [l|e] eqn:E; [|f_equal; eapply mean_groups1_raise; eauto].
  exfalso. apply mean_groups1_ok in E as [E1 E2].
  assert (Hk : In (key r) (group_keys key t)) by (apply GroupFacts.group_keys_In, in_map, Hr).
  rewrite <- E1 in Hk. apply in_map_iff in Hk as ([k m] & Hk & Hin). simpl in Hk. subst k.
  apply E2, GroupFacts.mean_ok in Hin. unfold has_str in Hin.
  rewrite <- not_true_iff_false, existsb_exists in Hin. apply Hin.
  exists (col r). split; [|rewrite Hs; reflexivity].
  apply in_map, filter_In. split; [exact Hr|]. rewrite String.eqb_refl. reflexivity.
Qed.

Lemma groupby_mean_no_str (key : Row -> string) (col : Row -> Cell) (t : table) :
  (forall r, In r t -> forall s, col r <> CStr s) ->
  exists l, groupby_mean key col t = Ok l.
Proof.
  intros H. apply mean_groups1_total. intros k _. unfold has_str.
  rewrite <- not_true_iff_false, existsb_exists. intros (c & Hc & Hs).
  apply in_map_iff in Hc as (r & <- & Hr). apply filter_In in Hr as [Hr _].
  destruct (col r) eqn:E; try discriminate. exact (H r Hr s E).
Qed.

Lemma num_geb_total (x y : string * num) : num_geb x y = false -> num_geb y x = true.
Proof.
  unfold num_geb. destruct (snd x), (snd y); try discriminate; auto.
  apply Qle_bool_total.
Qed.

Lemma num_geb_trans (x y z : string * num) :
  num_geb x y = true -> num_geb y z = true -> num_geb x z = true.
Proof.
  unfold num_geb. destruct (snd x), (snd y), (snd z); try discriminate; auto.
  intros H1 H2. exact (Qle_bool_trans _ _ _ H2 H1).
Qed.

(** X3: charts 02 and 14 (mean score by pillar, by sector): a text score
    anywhere makes the mean raise [TypeError]; with none, every group gets
    its mean, and the groups come highest mean first, NaN means last
    ([num_geb x y]: [y] is NaN, or both are numbers and [y <= x]). *)
Theorem mean_ranking_spec (key : Row -> string) (df : table) :
  ((exists r s, In r df /\ valoracion_ponderada r = CStr s) ->
     mean_ranking key df = Raise GroupFacts.mean_error)
  /\ ((forall r, In r df -> forall s, valoracion_ponderada r <> CStr s) ->
     exists l, mean_ranking key df = Ok l
       /\ Permutation (map fst l) (group_keys key df)
       /\ (forall k m, In (k, m) l -> mean (map valoracion_ponderada (group_rows key k df)) = Ok m)
       /\ StronglySorted (fun x y => num_geb x y = true) l).
Proof.
  unfold mean_ranking. split.
  - intros (r & s & Hr & Hs). rewrite (groupby_mean_str key _ df r s Hr Hs). reflexivity.
  - intros H. destruct (groupby_mean_no_str key _ df H) as [l E]. rewrite E.
    unfold groupby_mean in E. apply mean_groups1_ok in E as [E1 E2].
    exists (sort_by num_geb l). split; [reflexivity|].
    pose proof (SortFacts.sort_by_perm num_geb l) as Hp.
    split; [rewrite <- E1; apply Permutation_map, Hp|].
    split; [intros k m Hk; apply E2; eapply Permutation_in; [exact Hp|exact Hk]|].
    apply SortFacts.sort_by_sorted; [apply num_geb_total|apply num_geb_trans].
Qed.

End RankingFacts.

(* ------------------------------------------------------------------ *)
(** ** Chart 11: one row per company *)

Module HistogramFacts.
Import Data V2Charts.

Section Dedup.
Variable f : Row -> Row.
Variable p : Row -> bool.
Hypothesis f_company : forall r, razon_social (f r) = razon_social r.

Let g (seen : list string) (df : table) : table := drop_duplicates seen (filter p (map f df)).

Lemma dedup_companies (seen : list string) (df : table) (c : string) :
  In c (map razon_social (g seen df))
  <-> (exists r, In r df /\ razon_social r = c /\ p (f r) = true) /\ ~ In c seen.
Proof.
  unfold g. revert seen. induction df as [|r df IH]; intros seen; simpl.
  - split; [intros []|intros [(r & [] & _) _]].
  - destruct (p (f r)) eqn:Ep; simpl.
    + rewrite f_company. destruct (mem (razon_social r) seen) eqn:Em.
      * rewrite IH. apply SankeyFacts.mem_In in Em. split.
        -- intros [(r' & H1 & H2 & H3) H4]. split; [exists r'; tauto|exact H4].
        -- intros [(r' & [<-|H1] & H2 & H3) H4]; [subst c; contradiction|].
           split; [exists r'; tauto|exact H4].
      * simpl. rewrite f_company, IH. apply SankeyFacts.mem_false in Em. split.
        -- intros [<-|[(r' & H1 & H2 & H3) H4]].
           ++ split; [exists r; auto|exact Em].
           ++ split; [exists r'; tauto|]. intros H; apply H4; right; exact H.
        -- intros [(r' & [<-|H1] & H2 & H3) H4]; [left; exact H2|].
           destruct (string_dec (razon_social r) c) as [E|E]; [left; exact E|right].
           split; [exists r'; tauto|]. intros [H|H]; [exact (E H)|exact (H4 H)].
    + rewrite IH. split.
      * intros [(r' & H1 & H2 & H3) H4]. split; [exists r'; tauto|exact H4].
      * intros [(r' & [<-|H1] & H2 & H3) H4]; [congruence|].
        split; [exists r'; tauto|exact H4].
Qed.

Lemma dedup_NoDup (seen : list string) (df : table) : NoDup (map razon_social (g seen df)).
Proof.
  unfold g. revert seen. induction df as [|r df IH]; intros seen; simpl; [constructor|].
  destruct (p (f r)); simpl; [|apply IH].
  destruct (mem (razon_social (f r)) seen); simpl; [apply IH|].
  constructor; [|apply IH].
  intros H. fold (g (razon_social (f r) :: seen) df) in H.
  apply dedup_companies in H as [_ H]. apply H. left. reflexivity.
Qed.

Lemma dedup_first (seen : list string) (df : table) (x : Row) :
  In x (g seen df) ->
  exists pre r0 post, df = pre ++ r0 :: post /\ x = f r0 /\ p (f r0) = true
    /\ ~ In (razon_social r0) seen
    /\ forall r', In r' pre -> razon_social r' = razon_social r0 -> p (f r') = false.
Proof.
  unfold g. revert seen. induction df as [|r df IH]; intros seen; simpl; [intros []|].
  destruct (p (f r)) eqn:Ep; simpl.
  - destruct (mem (razon_social (f r)) seen) eqn:Em.
    + intros H. destruct (IH seen H) as (pre & r0 & post & E & Ex & Hp & Hs & Hpre).
      exists (r :: pre), r0, post. rewrite E. repeat split; auto.
      intros r' [<-|H'] Hc; [|auto]. apply SankeyFacts.mem_In in Em.
      rewrite f_company, Hc in Em. contradiction.
    + apply SankeyFacts.mem_false in Em. rewrite f_company in Em. simpl.
      intros [<-|H].
      * exists [], r, df. repeat split; auto. intros _ [].
      * destruct (IH _ H) as (pre & r0 & post & E & Ex & Hp & Hs & Hpre).
        exists (r :: pre), r0, post. rewrite E. repeat split; auto.
        -- intros H'. apply Hs. right. exact H'.
        -- intros r' [<-|H'] Hc; [|auto]. exfalso. apply Hs. left.
           rewrite f_company. exact Hc.
  - intros H. destruct (IH seen H) as (pre & r0 & post & E & Ex & Hp & Hs & Hpre).
    exists (r :: pre), r0, post. rewrite E. repeat split; auto.
    intros r' [<-|H'] Hc; auto.
Qed.
End Dedup.

Lemma to_numeric_not_str (c : Cell) : to_numeric c <> CNaN -> exists q, to_numeric c = CNum q.
Proof.
  destruct c as [q|s|]; simpl; [eauto| |congruence].
  destruct (parse_num s); [eauto|congruence].
Qed.

(** X4: chart 11 plots one row per company that has a row with a parseable
    founding year, and none for the others; that row is the company's first
    row with a parseable year, its year turned into a number. *)
Theorem chart_11_first_dated_row (df : table) :
  let u := chart_11_unique_companies df in
  NoDup (map razon_social u)
  /\ (forall c, In c (map razon_social u)
        <-> exists r, In r df /\ razon_social r = c /\ to_numeric (ano_fundacion r) <> CNaN)
  /\ (forall x, In x u ->
        exists pre r0 post q, df = pre ++ r0 :: post
          /\ x = set_col ColYear to_numeric r0
          /\ ano_fundacion x = CNum q
          /\ forall r', In r' pre -> razon_social r' = razon_social r0 ->
               to_numeric (ano_fundacion r') = CNaN).
Proof.
  intros u.
  set (p := fun r => negb (Store.is_nan (ano_fundacion r))).
  assert (Hf : forall r, razon_social (set_col ColYear to_numeric r) = razon_social r)
    by (intros [] ; reflexivity).
  assert (Hp : forall r, p (set_col ColYear to_numeric r) = true <-> to_numeric (ano_fundacion r) <> CNaN).
  { intros r. unfold p. destruct r; simpl. destruct (to_numeric _); simpl; split; congruence. }
  split; [apply (dedup_NoDup _ p Hf [] df)|]. split.
  - intros c. etransitivity; [exact (dedup_companies _ p Hf [] df c)|]. split.
    + intros [(r & H1 & H2 & H3) _]. exists r. rewrite <- Hp. auto.
    + intros (r & H1 & H2 & H3). split; [|intros []]. exists r. rewrite Hp. auto.
  - intros x Hx.
    destruct (dedup_first _ p Hf [] df x Hx) as (pre & r0 & post & E & Ex & H1 & _ & Hpre).
    apply Hp, to_numeric_not_str in H1 as [q Hq].
    exists pre, r0, post, q. split; [exact E|]. split; [exact Ex|].
    split; [rewrite Ex; destruct r0; exact Hq|].
    intros r' H' Hc. specialize (Hpre r' H' Hc). unfold p in Hpre.
    change (ano_fundacion (set_col ColYear to_numeric r')) with (to_numeric (ano_fundacion r')) in Hpre.
    destruct (to_numeric (ano_fundacion r')); [discriminate|discriminate|reflexivity].
Qed.

End HistogramFacts.

(* ------------------------------------------------------------------ *)
(** ** Chart 13: the means by pillar *)

Module MaterialityFacts.
Import Data V2Charts.






End MaterialityFacts.

(* ------------------------------------------------------------------ *)
(** ** Sums over the groups of a partition *)

Module PartitionFacts.
Import Data Script.




Lemma sum_cons (c : Cell) (cs : list Cell) : sum (c :: cs) == sum [c] + sum cs.
Proof. unfold sum. destruct c; simpl; ring. Qed.

Lemma sum_app' (cs1 cs2 : list Cell) : sum (cs1 ++ cs2) == sum cs1 + sum cs2.
Proof.
  induction cs1 as [|c cs1 IH]; simpl; [unfold sum; simpl; ring|].
  rewrite sum_cons, IH, (sum_cons c cs1). ring.
Qed.


Section Partition.
Context {K : Type}.
Variable key : Row -> K.
Variable sel : Row -> K -> bool.
Hypothesis sel_spec : forall r k, sel r k = true <-> key r = k.
Variable col : Row -> Cell.
Variable P : K -> bool.

End Partition.






End PartitionFacts.

(* ------------------------------------------------------------------ *)
(** ** The sum matrices of v3 (sections 2, 6 and 15) *)

Module PivotFacts.
Import Data Script V3 V3Sections.
















End PivotFacts.

(* ------------------------------------------------------------------ *)
(** ** Section 7: the Sankey flows balance at every pillar *)

Module SankeyBalanceFacts.
Import Data Script Sankey.









End SankeyBalanceFacts.

(* ------------------------------------------------------------------ *)
(** ** Section 5: the companies of the bubble chart *)

Module BubbleFacts.
Import Data Script V3 V3Sections.



Section Coerced.
(** The table as sections 4 and 5 leave it: the income coerced and
    zero-filled, the year coerced. *)
Variable f : Row -> Row.
Hypothesis f_company : forall r, razon_social (f r) = razon_social r.
Hypothesis f_income : forall r, ingresos_operacionales (f r) = coerce_fill (ingresos_operacionales r).
Hypothesis f_year : forall r, ano_fundacion (f r) = to_numeric (ano_fundacion r).




End Coerced.






End BubbleFacts.

(* ------------------------------------------------------------------ *)
(** ** Sections 16 and 17: the leading sector of each variable *)

Module LeaderFacts.
Import Data Script V3 V3Sections.












End LeaderFacts.

(* ------------------------------------------------------------------ *)
(** ** Section 10: the order of the diverging bars *)

Module DivergingOrderFacts.
Import Data V3 Fixtures.













End DivergingOrderFacts.
